(** * 3D Solar System Explorer: kinematics, projection, layering, picking,
      shading and the animation scheduler of [solar_app.py]

    The development embeds the parts of [solar_app.py] that carry the
    simulation-and-rendering pipeline and states the properties of the
    design document over them.

    Conventions of the embedding.
    - A Python [float] is a real number of [R]: arithmetic is exact, there
      is no rounding, overflow or NaN.  Integer quantities of the source
      (pixel channels, image sizes, wheel deltas) are in [Z].
    - An object mutated in place becomes a record passed through the
      method: [m self args] is a function from the record before the call
      to the record after it.
    - The back reference [moon.planet] is only ever read for the parent's
      current [x] and [y]; [Moon.update_position] receives these two
      values, taken from the parent after its own update, as the source
      reads them.
    - [random.random()] is an explicit stream of draws.
    - The canvas is a log of frames: each call of [draw_solar_system]
      appends one frame holding the zoom factor it was drawn with and the
      items it painted, in paint order. *)

From Stdlib Require Import Reals Lra Lia List ZArith Bool Ascii String.
From Stdlib Require Import Permutation Sorted.
From Stdlib Require Floats.
From Stdlib Require HexadecimalString.
Import ListNotations.
Open Scope R_scope.

(** ** Python's [math] and builtins used by the source *)

Module math.

(** [math.radians(x)] is [x * (pi / 180)]. *)
Definition radians (x : R) : R := x * (PI / 180).

Definition pi : R := PI.

End math.

Definition Rleb (a b : R) : bool := if Rle_dec a b then true else false.
Definition Rltb (a b : R) : bool := if Rlt_dec a b then true else false.
Definition Reqb (a b : R) : bool := if Req_dec_T a b then true else false.

(** ** The random source *)

Module random.

(** The generator: the values [random.random()] is going to return, and
    how many of them were consumed. *)
Record state : Type := mkState { outputs : nat -> R; consumed : nat }.

(** Every value of [random.random()] lies in [0, 1). *)
Definition valid (g : state) : Prop := forall n, 0 <= outputs g n < 1.

Definition random (g : state) : R * state :=
  (outputs g (consumed g), mkState (outputs g) (S (consumed g))).

(** [random.uniform(a, b)] is [a + (b - a) * random()]. *)
Definition uniform (a b : R) (g : state) : R * state :=
  let (u, g') := random g in (a + (b - a) * u, g').

End random.

(** ** class Moon *)

Module Moon.

Record t : Type := mk {
  name : string;
  radius : R;
  distance : R;
  orbital_speed : R;
  color : string;
  angle : R;
  initial_angle : R;
  x : R;
  y : R
}.

(** [Moon.__init__]: the starting angle is drawn, the position is 0. *)
Definition init (name : string) (radius distance orbital_speed : R)
    (color : string) (g : random.state) : t * random.state :=
  let (a, g') := random.uniform 0 (2 * math.pi) g in
  (mk name radius distance orbital_speed color a a 0 0, g').

(** [Moon.update_position]; [planet_x], [planet_y] are [self.planet.x] and
    [self.planet.y] at the time of the call. *)
Definition update_position (planet_x planet_y : R) (time_scale : R) (self : t) : t :=
  let angle' := angle self + orbital_speed self * time_scale in
  mk (name self) (radius self) (distance self) (orbital_speed self) (color self)
     angle'
     (initial_angle self)
     (planet_x + distance self * cos angle')
     (planet_y + distance self * sin angle').

Definition reset_position (self : t) : t :=
  mk (name self) (radius self) (distance self) (orbital_speed self) (color self)
     (initial_angle self)
     (initial_angle self)
     (x self)
     (y self).

(** The authoritative part of a moon: everything but its derived
    position, which is put to 0. *)
Definition forget_position (self : t) : t :=
  mk (name self) (radius self) (distance self) (orbital_speed self) (color self)
     (angle self) (initial_angle self) 0 0.

End Moon.

(** ** class Planet *)

Module Planet.

Record t : Type := mk {
  name : string;
  radius : R;
  distance_from_sun : R;
  orbital_speed : R;
  color : string;
  axial_tilt : R;
  orbital_inclination : R;
  has_rings : bool;
  angle : R;
  initial_angle : R;
  x : R;
  y : R;
  z : R;
  rotation_angle : R;
  moon_objects : list Moon.t
}.

(** [Planet.__init__], with the catalog fields the pipeline reads. *)
Definition init (name : string) (radius distance_from_sun orbital_speed : R)
    (color : string) (axial_tilt orbital_inclination : R) (has_rings : bool)
    (g : random.state) : t * random.state :=
  let (a, g') := random.uniform 0 (2 * math.pi) g in
  (mk name radius distance_from_sun orbital_speed color axial_tilt
      orbital_inclination has_rings a a 0 0 0 0 [], g').

Definition update_position (time_scale : R) (self : t) : t :=
  let angle' := angle self + orbital_speed self * time_scale in
  let rotation_angle' := rotation_angle self + 0.02 * time_scale in
  let x' := distance_from_sun self * cos angle' in
  let y' := distance_from_sun self * sin angle'
            * cos (math.radians (orbital_inclination self)) in
  let z' := distance_from_sun self * sin angle'
            * sin (math.radians (orbital_inclination self)) in
  mk (name self) (radius self) (distance_from_sun self) (orbital_speed self)
     (color self) (axial_tilt self) (orbital_inclination self) (has_rings self)
     angle'
     (initial_angle self)
     x' y' z'
     rotation_angle'
     (map (Moon.update_position x' y' time_scale) (moon_objects self)).

Definition reset_position (self : t) : t :=
  mk (name self) (radius self) (distance_from_sun self) (orbital_speed self)
     (color self) (axial_tilt self) (orbital_inclination self) (has_rings self)
     (initial_angle self)
     (initial_angle self)
     (x self) (y self) (z self)
     0
     (map Moon.reset_position (moon_objects self)).

(** [self.moon_objects.append(moon)] for each moon of [ms], in order. *)
Definition append_moons (ms : list Moon.t) (self : t) : t :=
  mk (name self) (radius self) (distance_from_sun self) (orbital_speed self)
     (color self) (axial_tilt self) (orbital_inclination self) (has_rings self)
     (angle self) (initial_angle self) (x self) (y self) (z self)
     (rotation_angle self)
     (moon_objects self ++ ms).

(** The authoritative part of a body: everything but the derived
    position of the body and of its moons, which is put to 0. *)
Definition forget_position (self : t) : t :=
  mk (name self) (radius self) (distance_from_sun self) (orbital_speed self)
     (color self) (axial_tilt self) (orbital_inclination self) (has_rings self)
     (angle self) (initial_angle self) 0 0 0
     (rotation_angle self)
     (map Moon.forget_position (moon_objects self)).

(** A finite sequence of [update_position] calls, one per time scale. *)
Definition advance_all (scales : list R) (self : t) : t :=
  fold_left (fun p ts => update_position ts p) scales self.

End Planet.

(** ** Builtins *)

Module builtins.

(** [int(v)] on a float: truncation toward zero. *)
Definition int (v : R) : Z :=
  if Rle_dec 0 v then Int_part v else (- Int_part (- v))%Z.

(** [sorted(l, key=key)]: Python's sort is stable and compares keys with
    [<] only.  An element is placed in front of the first element of the
    sorted rest whose key is not smaller than its own. *)
Section Sorted.
Context {A : Type} (key : A -> R).

Fixpoint insert (a : A) (l : list A) : list A :=
  match l with
  | [] => [a]
  | b :: l' => if Rltb (key b) (key a) then b :: insert a l' else a :: b :: l'
  end.

Fixpoint sorted (l : list A) : list A :=
  match l with
  | [] => []
  | a :: l' => insert a (sorted l')
  end.
End Sorted.

End builtins.

(** ** PIL images in mode RGBA *)

Module Image.

Record pixel : Type := rgba { red : Z; green : Z; blue : Z; alpha : Z }.

(** [pixels] is the pixel access object of [img.load()]: [pixels x y] is
    [pixels[x, y]]. *)
Record t : Type := mk {
  width : nat;
  height : nat;
  pixels : nat -> nat -> pixel
}.

(** [pixels[x, y] = v] *)
Definition putpixel (px : nat -> nat -> pixel) (x y : nat) (v : pixel)
    : nat -> nat -> pixel :=
  fun x' y' => if (Nat.eqb x' x && Nat.eqb y' y)%bool then v else px x' y'.

End Image.

(** ** More of Python: [range], string slices, hexadecimal text *)

Module python.

(** [range(start, stop, step)] as a list, for [step <> 0]: its length is
    [(stop - start - 1) // step + 1] when [start < stop] and [step > 0],
    [(start - stop - 1) // (- step) + 1] when [stop < start] and
    [step < 0], and 0 otherwise. *)
Definition range (start stop step : Z) : list Z :=
  let len :=
    if (0 <? step)%Z then
      if (start <? stop)%Z then ((stop - start - 1) / step + 1)%Z else 0%Z
    else
      if (stop <? start)%Z then ((start - stop - 1) / (- step) + 1)%Z else 0%Z in
  map (fun k => (start + Z.of_nat k * step)%Z) (seq 0 (Z.to_nat len)).

(** [s.lstrip(c)] for a single character [c]. *)
Fixpoint lstrip (c : Ascii.ascii) (s : string) : string :=
  match s with
  | EmptyString => EmptyString
  | String a s' => if Ascii.eqb a c then lstrip c s' else s
  end.

(** [s[i:j]]; like Python's slices, [substring] stops at the end of [s]. *)
Definition slice (i j : nat) (s : string) : string := substring i (j - i) s.

(** The value of a hexadecimal digit, in either case. *)
Definition hex_digit (c : Ascii.ascii) : option Z :=
  let n := Ascii.nat_of_ascii c in
  if ((48 <=? n) && (n <=? 57))%nat then Some (Z.of_nat (n - 48))
  else if ((97 <=? n) && (n <=? 102))%nat then Some (Z.of_nat (n - 87))
  else if ((65 <=? n) && (n <=? 70))%nat then Some (Z.of_nat (n - 55))
  else None.

Fixpoint int16_from (acc : Z) (s : string) : option Z :=
  match s with
  | EmptyString => Some acc
  | String c s' =>
      match hex_digit c with
      | Some d => int16_from (16 * acc + d) s'
      | None => None
      end
  end.

(** [int(s, 16)] on a string of hexadecimal digits; [None] is
    [ValueError], raised on the empty string and on a character that is
    no digit.  Python also reads a sign, surrounding blanks, a [0x] prefix
    and underscores between digits: strings of these forms are outside
    this model, which gives [None] on them too. *)
Definition int16 (s : string) : option Z :=
  match s with
  | EmptyString => None
  | _ => int16_from 0 s
  end.

(** ['%02x' % v]: lower-case hexadecimal, padded with a zero to two
    characters; a negative [v] prints as a minus sign and the digits of
    [- v]. *)
Definition format_02x (v : Z) : string :=
  let digits n := HexadecimalString.NilZero.string_of_uint (N.to_hex_uint n) in
  if (v <? 0)%Z then String "-"%char (digits (Z.to_N (- v)))
  else if (v <? 16)%Z then String "0"%char (digits (Z.to_N v))
  else digits (Z.to_N v).

End python.

(** ** class SolarSystemExplorer *)

Module SolarSystemExplorer.

(** What one call of a drawing method puts on the canvas. *)
Inductive item : Type :=
| Starfield
| Orbits
| Sun (radius : R)
| PlanetItem (planet : Planet.t) (x y radius : R) (shadow : bool)
| MoonItem (moon : Moon.t) (x y radius : R).

(** One call of [draw_solar_system]. *)
Record frame : Type := mkFrame {
  frame_zoom : R;
  frame_items : list item
}.

Record t : Type := mk {
  is_running : bool;
  zoom_factor : R;
  center_x : R;
  center_y : R;
  time_scale : R;
  current_date : R;
  show_orbits : bool;
  show_names : bool;
  show_moons : bool;
  show_3d : bool;
  depth_factor : R;
  planets : list Planet.t;
  animation_thread : option nat;
  last_x : R;
  last_y : R;
  dragging : bool;
  alive : list nat;
  spawned : nat;
  pending : nat;
  canvas : list frame
}.

(** Attribute assignments [self.f = v]. *)
Definition set_is_running (v0 : bool) (self : t) : t :=
  mk v0 (zoom_factor self) (center_x self) (center_y self) (time_scale self)
     (current_date self) (show_orbits self) (show_names self)
     (show_moons self) (show_3d self) (depth_factor self) (planets self)
     (animation_thread self) (last_x self) (last_y self) (dragging self)
     (alive self) (spawned self) (pending self) (canvas self).

Definition set_zoom_factor (v0 : R) (self : t) : t :=
  mk (is_running self) v0 (center_x self) (center_y self) (time_scale self)
     (current_date self) (show_orbits self) (show_names self)
     (show_moons self) (show_3d self) (depth_factor self) (planets self)
     (animation_thread self) (last_x self) (last_y self) (dragging self)
     (alive self) (spawned self) (pending self) (canvas self).

Definition set_center (v0 : R) (v1 : R) (self : t) : t :=
  mk (is_running self) (zoom_factor self) v0 v1 (time_scale self)
     (current_date self) (show_orbits self) (show_names self)
     (show_moons self) (show_3d self) (depth_factor self) (planets self)
     (animation_thread self) (last_x self) (last_y self) (dragging self)
     (alive self) (spawned self) (pending self) (canvas self).

Definition set_time_scale_field (v0 : R) (self : t) : t :=
  mk (is_running self) (zoom_factor self) (center_x self) (center_y self) v0
     (current_date self) (show_orbits self) (show_names self)
     (show_moons self) (show_3d self) (depth_factor self) (planets self)
     (animation_thread self) (last_x self) (last_y self) (dragging self)
     (alive self) (spawned self) (pending self) (canvas self).

Definition set_current_date (v0 : R) (self : t) : t :=
  mk (is_running self) (zoom_factor self) (center_x self) (center_y self)
     (time_scale self) v0 (show_orbits self) (show_names self)
     (show_moons self) (show_3d self) (depth_factor self) (planets self)
     (animation_thread self) (last_x self) (last_y self) (dragging self)
     (alive self) (spawned self) (pending self) (canvas self).

Definition set_show_orbits (v0 : bool) (self : t) : t :=
  mk (is_running self) (zoom_factor self) (center_x self) (center_y self)
     (time_scale self) (current_date self) v0 (show_names self)
     (show_moons self) (show_3d self) (depth_factor self) (planets self)
     (animation_thread self) (last_x self) (last_y self) (dragging self)
     (alive self) (spawned self) (pending self) (canvas self).

Definition set_show_names (v0 : bool) (self : t) : t :=
  mk (is_running self) (zoom_factor self) (center_x self) (center_y self)
     (time_scale self) (current_date self) (show_orbits self) v0
     (show_moons self) (show_3d self) (depth_factor self) (planets self)
     (animation_thread self) (last_x self) (last_y self) (dragging self)
     (alive self) (spawned self) (pending self) (canvas self).

Definition set_show_moons (v0 : bool) (self : t) : t :=
  mk (is_running self) (zoom_factor self) (center_x self) (center_y self)
     (time_scale self) (current_date self) (show_orbits self)
     (show_names self) v0 (show_3d self) (depth_factor self) (planets self)
     (animation_thread self) (last_x self) (last_y self) (dragging self)
     (alive self) (spawned self) (pending self) (canvas self).

Definition set_show_3d (v0 : bool) (self : t) : t :=
  mk (is_running self) (zoom_factor self) (center_x self) (center_y self)
     (time_scale self) (current_date self) (show_orbits self)
     (show_names self) (show_moons self) v0 (depth_factor self)
     (planets self) (animation_thread self) (last_x self) (last_y self)
     (dragging self) (alive self) (spawned self) (pending self)
     (canvas self).

Definition set_planets (v0 : list Planet.t) (self : t) : t :=
  mk (is_running self) (zoom_factor self) (center_x self) (center_y self)
     (time_scale self) (current_date self) (show_orbits self)
     (show_names self) (show_moons self) (show_3d self) (depth_factor self)
     v0 (animation_thread self) (last_x self) (last_y self) (dragging self)
     (alive self) (spawned self) (pending self) (canvas self).

Definition set_threads (v0 : option nat) (v1 : list nat) (v2 : nat)
    (self : t) : t :=
  mk (is_running self) (zoom_factor self) (center_x self) (center_y self)
     (time_scale self) (current_date self) (show_orbits self)
     (show_names self) (show_moons self) (show_3d self) (depth_factor self)
     (planets self) v0 (last_x self) (last_y self) (dragging self) v1 v2
     (pending self) (canvas self).

Definition set_drag (v0 : R) (v1 : R) (v2 : bool) (self : t) : t :=
  mk (is_running self) (zoom_factor self) (center_x self) (center_y self)
     (time_scale self) (current_date self) (show_orbits self)
     (show_names self) (show_moons self) (show_3d self) (depth_factor self)
     (planets self) (animation_thread self) v0 v1 v2 (alive self)
     (spawned self) (pending self) (canvas self).

Definition set_alive (v0 : list nat) (self : t) : t :=
  mk (is_running self) (zoom_factor self) (center_x self) (center_y self)
     (time_scale self) (current_date self) (show_orbits self)
     (show_names self) (show_moons self) (show_3d self) (depth_factor self)
     (planets self) (animation_thread self) (last_x self) (last_y self)
     (dragging self) v0 (spawned self) (pending self) (canvas self).

Definition set_pending (v0 : nat) (self : t) : t :=
  mk (is_running self) (zoom_factor self) (center_x self) (center_y self)
     (time_scale self) (current_date self) (show_orbits self)
     (show_names self) (show_moons self) (show_3d self) (depth_factor self)
     (planets self) (animation_thread self) (last_x self) (last_y self)
     (dragging self) (alive self) (spawned self) v0 (canvas self).

Definition set_canvas (v0 : list frame) (self : t) : t :=
  mk (is_running self) (zoom_factor self) (center_x self) (center_y self)
     (time_scale self) (current_date self) (show_orbits self)
     (show_names self) (show_moons self) (show_3d self) (depth_factor self)
     (planets self) (animation_thread self) (last_x self) (last_y self)
     (dragging self) (alive self) (spawned self) (pending self) v0.

(** *** Catalog and construction *)

(** The rows of [planets_data] in [initialize_planets], in dictionary
    order: name, radius, distance, speed, color, axial tilt, inclination,
    rings. *)
Definition planets_data
    : list (string * R * R * R * string * R * R * bool) :=
  [ ("Mercury"%string, 5, 80, 0.04, "#8C7853"%string, 0.034, 7.0, false);
    ("Venus"%string, 8, 110, 0.03, "#FFC649"%string, 177.4, 3.4, false);
    ("Earth"%string, 9, 150, 0.02, "#6B93D6"%string, 23.44, 0.0, false);
    ("Mars"%string, 7, 190, 0.015, "#CD5C5C"%string, 25.19, 1.9, false);
    ("Jupiter"%string, 25, 280, 0.008, "#D8CA9D"%string, 3.13, 1.3, true);
    ("Saturn"%string, 22, 350, 0.006, "#FAD5A5"%string, 26.73, 2.5, true);
    ("Uranus"%string, 15, 420, 0.004, "#4FD0E7"%string, 97.77, 0.8, true);
    ("Neptune"%string, 14, 480, 0.003, "#4B70DD"%string, 28.32, 1.8, true);
    ("Pluto"%string, 3, 520, 0.002, "#C0C0C0"%string, 122.53, 17.2, false) ].

(** [moon_data] in [initialize_moons]: name, radius, distance, speed,
    color. *)
Definition moon_data : list (string * list (string * R * R * R * string)) :=
  [ ("Earth"%string, [("Moon"%string, 3, 20, 0.05, "#AAAAAA"%string)]);
    ("Mars"%string, [("Phobos"%string, 1, 15, 0.1, "#BBBBBB"%string);
                     ("Deimos"%string, 1, 18, 0.08, "#CCCCCC"%string)]);
    ("Jupiter"%string, [("Io"%string, 2, 30, 0.15, "#FFE4B5"%string);
                        ("Europa"%string, 2, 35, 0.12, "#FFF8DC"%string);
                        ("Ganymede"%string, 3, 40, 0.1, "#F5DEB3"%string);
                        ("Callisto"%string, 2, 45, 0.08, "#D2B48C"%string)]);
    ("Saturn"%string, [("Titan"%string, 3, 40, 0.07, "#FFA07A"%string);
                       ("Rhea"%string, 2, 35, 0.09, "#F0E68C"%string);
                       ("Iapetus"%string, 2, 50, 0.06, "#CD853F"%string)]);
    ("Uranus"%string, [("Titania"%string, 2, 30, 0.05, "#ADD8E6"%string);
                       ("Oberon"%string, 2, 35, 0.045, "#87CEFA"%string)]);
    ("Neptune"%string, [("Triton"%string, 2, 30, 0.04, "#AFEEEE"%string)]);
    ("Pluto"%string, [("Charon"%string, 1, 15, 0.03, "#D3D3D3"%string)]) ].

Fixpoint planets_from (data : list (string * R * R * R * string * R * R * bool))
    (g : random.state) : list Planet.t * random.state :=
  match data with
  | [] => ([], g)
  | (name, radius, distance, speed, color, tilt, inclination, rings) :: rest =>
      let (planet, g1) :=
        Planet.init name radius distance speed color tilt inclination rings g in
      let (planets, g2) := planets_from rest g1 in
      (planet :: planets, g2)
  end.

Definition initialize_planets (g : random.state) : list Planet.t * random.state :=
  planets_from planets_data g.

Fixpoint moons_from (infos : list (string * R * R * R * string))
    (g : random.state) : list Moon.t * random.state :=
  match infos with
  | [] => ([], g)
  | (name, radius, distance, speed, color) :: rest =>
      let (moon, g1) := Moon.init name radius distance speed color g in
      let (moons, g2) := moons_from rest g1 in
      (moon :: moons, g2)
  end.

Fixpoint lookup {V : Type} (k : string) (d : list (string * V)) : option V :=
  match d with
  | [] => None
  | (k', v) :: rest => if String.eqb k k' then Some v else lookup k rest
  end.

Fixpoint initialize_moons (planets : list Planet.t) (g : random.state)
    : list Planet.t * random.state :=
  match planets with
  | [] => ([], g)
  | planet :: rest =>
      let (planet', g1) :=
        match lookup (Planet.name planet) moon_data with
        | Some infos =>
            let (moons, g') := moons_from infos g in
            (Planet.append_moons moons planet, g')
        | None => (planet, g)
        end in
      let (rest', g2) := initialize_moons rest g1 in
      (planet' :: rest', g2)
  end.

(** *** Shading *)

(** The body of the two loops of [create_texture_map] at pixel [(x, y)]
    holding [p]. *)
Definition shade (width height x y : nat) (p : Image.pixel) : Image.pixel :=
  let dx := (INR x - INR width / 2) / (INR width / 2) in
  let dy := (INR y - INR height / 2) / (INR height / 2) in
  let distance := sqrt (dx * dx + dy * dy) in
  if Rle_dec distance 1.0 then
    let intensity := 1.0 - distance * 0.7 in
    let intensity := Rmax 0.3 (Rmin 1.0 intensity) in
    Image.rgba (builtins.int (IZR (Image.red p) * intensity))
               (builtins.int (IZR (Image.green p) * intensity))
               (builtins.int (IZR (Image.blue p) * intensity))
               (Image.alpha p)
  else Image.rgba 0 0 0 0.

(** [for x in range(width)] at row [y]. *)
Definition shade_row (width height y : nat) (px : nat -> nat -> Image.pixel)
    : nat -> nat -> Image.pixel :=
  fold_left (fun px x => Image.putpixel px x y (shade width height x y (px x y)))
            (seq 0 width) px.

(** [create_texture_map] on an RGBA image (an image of another mode is
    first converted by PIL).  No step of the body raises, so the [except]
    branch returning [None] is not taken. *)
Definition create_texture_map (img : Image.t) : option Image.t :=
  let width := Image.width img in
  let height := Image.height img in
  Some (Image.mk width height
          (fold_left (fun px y => shade_row width height y px)
                     (seq 0 height) (Image.pixels img))).

(** *** Drawing *)

(** The local [planets_sorted] of [draw_solar_system]. *)
Definition planets_sorted (self : t) : list Planet.t :=
  builtins.sorted (fun p => if show_3d self then Planet.z p else 0) (planets self).

(** [draw_planet]: position, radius and drop shadow; the body itself is an
    image or a shaded circle, with rings and a label, all at this place. *)
Definition draw_planet (self : t) (planet : Planet.t) : item :=
  let x := center_x self + Planet.x planet * zoom_factor self in
  let y := center_y self + Planet.y planet * zoom_factor self in
  let y := if show_3d self
           then y + Planet.z planet * depth_factor self * zoom_factor self
           else y in
  let radius := Planet.radius planet * zoom_factor self in
  PlanetItem planet x y radius (show_3d self && Rltb 0 (Planet.z planet)).

Definition draw_moon (self : t) (moon : Moon.t) : item :=
  let moon_radius := Moon.radius moon * zoom_factor self in
  let moon_radius := if Rlt_dec moon_radius 1 then 1 else moon_radius in
  let x := center_x self + Moon.x moon * zoom_factor self in
  let y := center_y self + Moon.y moon * zoom_factor self in
  MoonItem moon x y moon_radius.

Definition draw_sun (self : t) : item := Sun (20 * zoom_factor self).

Definition draw_solar_system (self : t) : t :=
  let items :=
    [Starfield]
    ++ (if show_orbits self then [Orbits] else [])
    ++ [draw_sun self]
    ++ flat_map (fun planet =>
                   draw_planet self planet
                   :: (if show_moons self
                       then map (draw_moon self) (Planet.moon_objects planet)
                       else []))
                (planets_sorted self) in
  set_canvas (mkFrame (zoom_factor self) items :: canvas self) self.

(** *** Picking *)

Fixpoint planet_at (self : t) (x y : R) (planets : list Planet.t)
    : option Planet.t :=
  match planets with
  | [] => None
  | planet :: rest =>
      let px := center_x self + Planet.x planet * zoom_factor self in
      let py := center_y self + Planet.y planet * zoom_factor self in
      let py := if show_3d self
                then py + Planet.z planet * depth_factor self * zoom_factor self
                else py in
      let distance := sqrt ((x - px) ^ 2 + (y - py) ^ 2) in
      if Rle_dec distance (Planet.radius planet * zoom_factor self)
      then Some planet
      else planet_at self x y rest
  end.

Definition get_planet_at_position (self : t) (x y : R) : option Planet.t :=
  planet_at self x y (planets self).

(** *** View-state mutators *)

Definition set_time_scale (value : R) (self : t) : t :=
  set_time_scale_field value self.

Definition reset_view (self : t) : t :=
  let self := set_zoom_factor 1.0 self in
  let self := set_center 700 400 self in
  let self := set_planets (map Planet.reset_position (planets self)) self in
  draw_solar_system self.

(** [reset_date]; [now] is the value of [datetime.now()]. *)
Definition reset_date (now : R) (self : t) : t :=
  set_current_date now self.

Definition zoom_in (self : t) : t :=
  let self := set_zoom_factor (zoom_factor self * 1.2) self in
  draw_solar_system self.

Definition zoom_out (self : t) : t :=
  let self := set_zoom_factor (zoom_factor self / 1.2) self in
  draw_solar_system self.

(** The toggles read the state of their check button, [b]. *)
Definition toggle_orbits (b : bool) (self : t) : t :=
  draw_solar_system (set_show_orbits b self).

Definition toggle_names (b : bool) (self : t) : t :=
  draw_solar_system (set_show_names b self).

Definition toggle_moons (b : bool) (self : t) : t :=
  draw_solar_system (set_show_moons b self).

Definition toggle_3d (b : bool) (self : t) : t :=
  draw_solar_system (set_show_3d b self).

(** [on_canvas_click], without the information window it may open. *)
Definition on_canvas_click (event_x event_y : R) (self : t) : t :=
  set_drag event_x event_y true self.

Definition on_canvas_drag (event_x event_y : R) (self : t) : t :=
  if dragging self then
    let dx := event_x - last_x self in
    let dy := event_y - last_y self in
    let self := set_center (center_x self + dx) (center_y self + dy) self in
    let self := set_drag event_x event_y (dragging self) self in
    draw_solar_system self
  else self.

Definition on_mouse_wheel (delta : Z) (self : t) : t :=
  let self :=
    if (0 <? delta)%Z
    then set_zoom_factor (zoom_factor self * 1.1) self
    else set_zoom_factor (zoom_factor self / 1.1) self in
  draw_solar_system self.

(** *** Animation scheduler *)

(** [thread.is_alive()] *)
Definition is_alive (tid : nat) (self : t) : bool :=
  existsb (Nat.eqb tid) (alive self).

Definition start_animation (self : t) : t :=
  if negb (is_running self) then
    let self := set_is_running true self in
    if match animation_thread self with
       | None => true
       | Some tid => negb (is_alive tid self)
       end
    then
      (* a new thread running [animate] *)
      let tid := spawned self in
      set_threads (Some tid) (tid :: alive self) (S tid) self
    else self
  else self.

Definition pause_animation (self : t) : t :=
  set_is_running false self.

(** One evaluation of the [while self.is_running] test of [animate] by the
    thread [tid], followed by the loop body when the test holds; the
    thread ends when it does not.  [root.after(0, self.update_gui)] queues
    one call of [update_gui]. *)
Definition animate_iteration (tid : nat) (self : t) : t :=
  if is_alive tid self then
    if is_running self then
      let self :=
        set_planets (map (Planet.update_position (time_scale self)) (planets self))
                    self in
      let self := set_current_date (current_date self + time_scale self) self in
      set_pending (S (pending self)) self
    else set_alive (filter (fun t' => negb (Nat.eqb t' tid)) (alive self)) self
  else self.

(** The main loop serving one queued [update_gui]. *)
Definition update_gui (self : t) : t :=
  match pending self with
  | O => self
  | S n => draw_solar_system (set_pending n self)
  end.

(** *** Construction *)

(** [__init__]; [now] is the value of [datetime.now()]. *)
Definition init (now : R) (g : random.state) : t * random.state :=
  let (planets0, g1) := initialize_planets g in
  let (planets1, g2) := initialize_moons planets0 g1 in
  (draw_solar_system
     (mk false 1.0 700 400 1.0 now true true true true 0.5 planets1 None
         0 0 false [] O O []),
   g2).

(** *** Events *)

Inductive event : Type :=
| StartAnimation
| PauseAnimation
| ResetView
| ResetDate (now : R)
| ZoomIn
| ZoomOut
| MouseWheel (delta : Z)
| SetTimeScale (value : R)
| ToggleOrbits (b : bool)
| ToggleNames (b : bool)
| ToggleMoons (b : bool)
| Toggle3d (b : bool)
| CanvasClick (event_x event_y : R)
| CanvasDrag (event_x event_y : R)
| AnimateIteration (tid : nat)
| UpdateGui.

Definition handle (e : event) (self : t) : t :=
  match e with
  | StartAnimation => start_animation self
  | PauseAnimation => pause_animation self
  | ResetView => reset_view self
  | ResetDate now => reset_date now self
  | ZoomIn => zoom_in self
  | ZoomOut => zoom_out self
  | MouseWheel delta => on_mouse_wheel delta self
  | SetTimeScale value => set_time_scale value self
  | ToggleOrbits b => toggle_orbits b self
  | ToggleNames b => toggle_names b self
  | ToggleMoons b => toggle_moons b self
  | Toggle3d b => toggle_3d b self
  | CanvasClick ex ey => on_canvas_click ex ey self
  | CanvasDrag ex ey => on_canvas_drag ex ey self
  | AnimateIteration tid => animate_iteration tid self
  | UpdateGui => update_gui self
  end.

Definition run (events : list event) (self : t) : t :=
  fold_left (fun s e => handle e s) events self.

(** The states the application can be in after [__init__] and any finite
    sequence of events. *)
Definition reachable (s : t) : Prop :=
  exists now g events, s = run events (fst (init now g)).

(** The zoom mutators: the two buttons and the mouse wheel. *)
Inductive zoom_call : Type :=
| CallZoomIn
| CallZoomOut
| CallMouseWheel (delta : Z).

Definition zoom_event (c : zoom_call) : event :=
  match c with
  | CallZoomIn => ZoomIn
  | CallZoomOut => ZoomOut
  | CallMouseWheel delta => MouseWheel delta
  end.


(** *** Colors *)

(** The local [hex_to_rgb] of [mix_colors]; [None] is the [ValueError]
    of [int]. *)
Definition hex_to_rgb (hex_color : string) : option (Z * Z * Z) :=
  let hex_color := python.lstrip "#"%char hex_color in
  match python.int16 (python.slice 0 2 hex_color),
        python.int16 (python.slice 2 4 hex_color),
        python.int16 (python.slice 4 6 hex_color) with
  | Some r, Some g, Some b => Some (r, g, b)
  | _, _, _ => None
  end.

(** The local [rgb_to_hex] of [mix_colors]: ['#%02x%02x%02x' % rgb]. *)
Definition rgb_to_hex (rgb : Z * Z * Z) : string :=
  let '(r, g, b) := rgb in
  String "#"%char (python.format_02x r ++ python.format_02x g ++ python.format_02x b).

Definition mix_colors (color1 color2 : string) (ratio : R) : option string :=
  match hex_to_rgb color1 with
  | None => None
  | Some (r1, g1, b1) =>
      match hex_to_rgb color2 with
      | None => None
      | Some (r2, g2, b2) =>
          let mixed c1 c2 := builtins.int (IZR c1 * ratio + IZR c2 * (1 - ratio)) in
          Some (rgb_to_hex (mixed r1 r2, mixed g1 g2, mixed b1 b2))
      end
  end.

(** *** The shapes of orbits, fallback bodies and rings *)

(** [canvas.create_oval(x0, y0, x1, y1, fill=..., outline=..., width=...)];
    the empty string stands for an option that is not given. *)
Record oval : Type := mkOval {
  oval_x0 : R;
  oval_y0 : R;
  oval_x1 : R;
  oval_y1 : R;
  oval_fill : string;
  oval_outline : string
}.


(** The shapes created in a loop whose body may raise: the first
    [ValueError] of [mix_colors] ends the call. *)
Fixpoint collect {A B : Type} (f : A -> option B) (l : list A) : option (list B) :=
  match l with
  | [] => Some []
  | a :: l' =>
      match f a with
      | None => None
      | Some b =>
          match collect f l' with
          | None => None
          | Some bs => Some (b :: bs)
          end
      end
  end.

(** [draw_planet_circle]; [None] when [mix_colors] raises. *)
Definition draw_planet_circle (self : t) (planet : Planet.t) (x y radius : R)
    : option (list oval) :=
  if show_3d self then
    collect (fun i =>
               let intensity := 0.4 + 0.6 * (radius - IZR i) / radius in
               match mix_colors (Planet.color planet) "#000000" intensity with
               | None => None
               | Some shaded_color =>
                   Some (mkOval (x - IZR i) (y - IZR i) (x + IZR i) (y + IZR i)
                                shaded_color shaded_color)
               end)
            (python.range (builtins.int radius) 0 (-1))
  else
    Some [mkOval (x - radius) (y - radius) (x + radius) (y + radius)
                 (Planet.color planet) "white"].

(** [draw_rings]; [enumerate([0.8, 0.6, 0.4])] is the list of pairs. *)
Definition draw_rings (self : t) (planet : Planet.t) (x y radius : R)
    : option (list oval) :=
  let ring_outer := radius * 1.8 in
  let ring_inner := radius * 1.3 in
  collect (fun '(i, alpha) =>
             let ring_radius :=
               ring_inner + (ring_outer - ring_inner) * (IZR i + 1) / 3 in
             match mix_colors "#CCCCCC" (Planet.color planet) alpha with
             | None => None
             | Some ring_color =>
                 if show_3d self then
                   let ring_height := ring_radius * 0.2 in
                   Some (mkOval (x - ring_radius) (y - ring_height)
                                (x + ring_radius) (y + ring_height)
                                "" ring_color)
                 else
                   Some (mkOval (x - ring_radius) (y - ring_radius)
                                (x + ring_radius) (y + ring_radius)
                                "" ring_color)
             end)
          [(0%Z, 0.8); (1%Z, 0.6); (2%Z, 0.4)].

(** *** Catalog files *)

(** A row of [csv.DictReader]: field name to value; a short line leaves
    its last fields at [None]. *)
Definition row : Type := list (string * option string).

(** [count_moons]; [None] is the [KeyError] of [moon['planet']]. *)
Fixpoint count_moons (satellite_data : list row) (planet_name : string)
    : option nat :=
  match satellite_data with
  | [] => Some O
  | moon :: rest =>
      match lookup "planet" moon with
      | None => None
      | Some planet =>
          match count_moons rest planet_name with
          | None => None
          | Some n =>
              match planet with
              | Some p => if String.eqb p planet_name then Some (S n) else Some n
              | None => Some n
              end
          end
      end
  end.

(** [d[k] = v] on a dictionary kept as an association list: the value of
    an existing key is replaced in place, a new key goes to the end. *)
Fixpoint dict_set {K V : Type} (eqb : K -> K -> bool) (k : K) (v : V)
    (d : list (K * V)) : list (K * V) :=
  match d with
  | [] => [(k, v)]
  | (k', v') :: d' =>
      if eqb k' k then (k, v) :: d' else (k', v') :: dict_set eqb k v d'
  end.

Fixpoint dict_get {K V : Type} (eqb : K -> K -> bool) (k : K)
    (d : list (K * V)) : option V :=
  match d with
  | [] => None
  | (k', v) :: d' => if eqb k' k then Some v else dict_get eqb k d'
  end.

Definition key_eqb (a b : option string) : bool :=
  match a, b with
  | Some x, Some y => String.eqb x y
  | None, None => true
  | _, _ => false
  end.

(** [{row['planet']: row for row in rows}], filled from an accumulator;
    [None] is the [KeyError] of a row without the field. *)
Fixpoint index_rows (rows : list row) (acc : list (option string * row))
    : option (list (option string * row)) :=
  match rows with
  | [] => Some acc
  | r :: rest =>
      match lookup "planet" r with
      | None => None
      | Some k => index_rows rest (dict_set key_eqb k r acc)
      end
  end.

(** [load_planet_data]; [file] is what [csv.DictReader] yields, [None]
    when opening or reading the file raises.  Every exception ends in the
    empty dictionary. *)
Definition load_planet_data (file : option (list row))
    : list (option string * row) :=
  match file with
  | None => []
  | Some rows =>
      match index_rows rows [] with
      | None => []
      | Some d => d
      end
  end.

(** [load_satellite_data] *)
Definition load_satellite_data (file : option (list row)) : list row :=
  match file with
  | None => []
  | Some rows => rows
  end.

(** [self.planet_data.get(name, {}).get(field)], the value the
    constructor of [Planet] receives for a scientific field. *)
Definition csv_field (planet_data : list (option string * row))
    (name field : string) : option string :=
  match dict_get key_eqb (Some name) planet_data with
  | None => None
  | Some csv_data =>
      match lookup field csv_data with
      | None => None
      | Some value => value
      end
  end.

(** *** Selecting a planet *)

(** The planet [show_planet_info] reports on when the combo box holds
    [selected]: [next((p for p in self.planets if p.name == selected),
    None)], and nothing for the empty selection. *)
Definition show_planet_info (selected : string) (self : t) : option Planet.t :=
  if String.eqb selected "" then None
  else find (fun p => String.eqb (Planet.name p) selected) (planets self).

(** The planet whose information window a click at [(x, y)] opens:
    [on_canvas_click] puts the name of the clicked planet into the combo
    box and calls [show_planet_info]. *)
Definition clicked_info (x y : R) (self : t) : option Planet.t :=
  match get_planet_at_position self x y with
  | Some clicked_planet => show_planet_info (Planet.name clicked_planet) self
  | None => None
  end.

(** *** The sun and a planet in full *)




End SolarSystemExplorer.

(** ** The zoom mutators on binary64

    The assignments of [zoom_in], [zoom_out] and [on_mouse_wheel] on IEEE
    754 binary64 values, as Python evaluates them; 1.2 and 1.1 are the
    nearest binary64 values.  They serve to check that rounding does not
    take the zoom factor of the exact model to zero. *)

Module Binary64.

Import Floats.

Definition one : float := 1%float.

Definition zoom_in (z : float) : float :=
  (z * 0x1.3333333333333p+0)%float.

Definition zoom_out (z : float) : float :=
  (z / 0x1.3333333333333p+0)%float.

Definition wheel_up (z : float) : float :=
  (z * 0x1.199999999999ap+0)%float.

Definition wheel_down (z : float) : float :=
  (z / 0x1.199999999999ap+0)%float.

(** [0 < z] *)
Definition positive (z : float) : bool := (0 <? z)%float.

Definition same (a b : float) : bool := (a =? b)%float.

End Binary64.

(** ** The contracts of the design document

    These definitions follow the wording of the design document, not the
    source; the properties below compare the source with them. *)

Module Spec.

(** Projection: [screen_x = center_x + body.x * zoom]. *)
Definition screen_x (center_x zoom : R) (body : Planet.t) : R :=
  center_x + Planet.x body * zoom.

(** [screen_y = center_y + body.y * zoom
              + (3D-mode ? body.z * depth_factor * zoom : 0)]. *)
Definition screen_y (center_y zoom depth_factor : R) (mode_3d : bool)
    (body : Planet.t) : R :=
  center_y + Planet.y body * zoom
  + (if mode_3d then Planet.z body * depth_factor * zoom else 0).

(** Screen radius [= body.display_radius * zoom]. *)
Definition screen_radius (zoom : R) (body : Planet.t) : R :=
  Planet.radius body * zoom.

(** A hit: the Euclidean distance from [(px, py)] to the projected
    position is at most the screen radius. *)
Definition hit (self : SolarSystemExplorer.t) (px py : R) (body : Planet.t)
    : bool :=
  let sx := screen_x (SolarSystemExplorer.center_x self)
                     (SolarSystemExplorer.zoom_factor self) body in
  let sy := screen_y (SolarSystemExplorer.center_y self)
                     (SolarSystemExplorer.zoom_factor self)
                     (SolarSystemExplorer.depth_factor self)
                     (SolarSystemExplorer.show_3d self) body in
  Rleb (sqrt ((px - sx) * (px - sx) + (py - sy) * (py - sy)))
       (screen_radius (SolarSystemExplorer.zoom_factor self) body).

(** [pick]: the first body, in catalog order, that is hit. *)
Definition pick (self : SolarSystemExplorer.t) (px py : R) : option Planet.t :=
  find (hit self px py) (SolarSystemExplorer.planets self).

(** The single numeric key of the draw order. *)
Definition depth_key (mode_3d : bool) (body : Planet.t) : R :=
  if mode_3d then Planet.z body else 0.

(** Ascending order of keys, and the test for one key value. *)
Definition le_key {A : Type} (key : A -> R) (a b : A) : Prop := key a <= key b.
Definition same_key {A : Type} (key : A -> R) (k : R) (a : A) : bool :=
  Reqb (key a) k.

(** [l'] is [l] sorted by [key], ties in the order of [l]. *)
Definition stable_sort_of {A : Type} (key : A -> R) (l l' : list A) : Prop :=
  Permutation l l'
  /\ StronglySorted (le_key key) l'
  /\ forall k : R, filter (same_key key k) l' = filter (same_key key k) l.

(** [clamp(v, lo, hi)] *)
Definition clamp (v lo hi : R) : R := Rmax lo (Rmin hi v).

(** Shading intensity at radial distance [d]. *)
Definition intensity (d : R) : R := clamp (1.0 - 0.7 * d) 0.3 1.0.

(** Normalized radial distance of pixel [(x, y)] from the image center. *)
Definition radial_distance (width height x y : nat) : R :=
  let dx := (INR x - INR width / 2) / (INR width / 2) in
  let dy := (INR y - INR height / 2) / (INR height / 2) in
  sqrt (dx * dx + dy * dy).

(** The planets painted by a frame, in paint order. *)
Definition painted_planets (f : SolarSystemExplorer.frame) : list Planet.t :=
  flat_map (fun i => match i with
                     | SolarSystemExplorer.PlanetItem planet _ _ _ _ => [planet]
                     | _ => []
                     end)
           (SolarSystemExplorer.frame_items f).

(** The snapshot taken at construction: the initial angle of a body and
    of each of its satellites. *)
Definition snapshot (body : Planet.t) : R * list R :=
  (Planet.initial_angle body,
   map Moon.initial_angle (Planet.moon_objects body)).

(** The current angle of a body and of each of its satellites. *)
Definition angles (body : Planet.t) : R * list R :=
  (Planet.angle body, map Moon.angle (Planet.moon_objects body)).

(** A body whose angles are those of its snapshot. *)
Definition at_rest (body : Planet.t) : Prop := angles body = snapshot body.

(** A starting angle is in [0, 2*pi), for a body and its satellites. *)
Definition in_range (body : Planet.t) : Prop :=
  0 <= Planet.angle body < 2 * PI
  /\ Forall (fun moon => 0 <= Moon.angle moon < 2 * PI)
            (Planet.moon_objects body).

(** The defaults of the View State: zoom factor, pan offset, visibility
    toggles, simulated current date ([now] at startup) and time-scale
    multiplier as [__init__] sets them. *)
Definition view_state_default (now : R) (s : SolarSystemExplorer.t) : Prop :=
  SolarSystemExplorer.zoom_factor s = 1.0
  /\ SolarSystemExplorer.center_x s = 700
  /\ SolarSystemExplorer.center_y s = 400
  /\ SolarSystemExplorer.show_orbits s = true
  /\ SolarSystemExplorer.show_names s = true
  /\ SolarSystemExplorer.show_moons s = true
  /\ SolarSystemExplorer.show_3d s = true
  /\ SolarSystemExplorer.current_date s = now
  /\ SolarSystemExplorer.time_scale s = 1.0.

(** The contract of [reset()] as the design document words it, between a
    state [s] of a session started at [now] from the state [s0] and the
    state [s'] after the reset. *)
Definition reset_contract (now : R) (s0 s s' : SolarSystemExplorer.t) : Prop :=
  map angles (SolarSystemExplorer.planets s')
  = map angles (SolarSystemExplorer.planets s0)
  /\ (exists f, SolarSystemExplorer.canvas s'
                = f :: SolarSystemExplorer.canvas s)
  /\ SolarSystemExplorer.is_running s' = SolarSystemExplorer.is_running s
  /\ view_state_default now s'.

End Spec.

(** ** Invariants of the application state *)

(** Every frame was drawn with a positive zoom factor, and so will the
    next one be. *)
Definition zoom_positive (s : SolarSystemExplorer.t) : Prop :=
  0 < SolarSystemExplorer.zoom_factor s
  /\ Forall (fun f => 0 < SolarSystemExplorer.frame_zoom f)
            (SolarSystemExplorer.canvas s).

(** At most one loop is alive, it is the one [animation_thread] refers
    to, and one is alive whenever the flag [is_running] is set. *)
Definition one_loop (s : SolarSystemExplorer.t) : Prop :=
  (SolarSystemExplorer.alive s = [] /\ SolarSystemExplorer.is_running s = false)
  \/ exists tid, SolarSystemExplorer.animation_thread s = Some tid
                 /\ SolarSystemExplorer.alive s = [tid].

(** ** What a frame shows *)

(** A painted item as the screen shows it: which body, where and how
    large, without the state of the body. *)
Inductive place : Type :=
| StarfieldPlace
| OrbitsPlace
| SunPlace (radius : R)
| PlanetPlace (name : string) (x y radius : R) (shadow : bool)
| MoonPlace (name : string) (x y radius : R).

Definition item_place (i : SolarSystemExplorer.item) : place :=
  match i with
  | SolarSystemExplorer.Starfield => StarfieldPlace
  | SolarSystemExplorer.Orbits => OrbitsPlace
  | SolarSystemExplorer.Sun radius => SunPlace radius
  | SolarSystemExplorer.PlanetItem planet x y radius shadow =>
      PlanetPlace (Planet.name planet) x y radius shadow
  | SolarSystemExplorer.MoonItem moon x y radius =>
      MoonPlace (Moon.name moon) x y radius
  end.

(** The events that leave the simulated time alone: all but starting the
    animation and the two resets. *)
Definition keeps_time (e : SolarSystemExplorer.event) : bool :=
  match e with
  | SolarSystemExplorer.StartAnimation
  | SolarSystemExplorer.ResetView
  | SolarSystemExplorer.ResetDate _ => false
  | _ => true
  end.

(** The names that [moon_data] lists for a planet, in order. *)
Definition listed_moons (p : Planet.t) : list string :=
  match SolarSystemExplorer.lookup (Planet.name p)
          SolarSystemExplorer.moon_data with
  | Some infos => map (fun info => fst (fst (fst (fst info)))) infos
  | None => []
  end.

(** Two rows of a planet file that both describe Earth. *)
Definition earth_rows : list SolarSystemExplorer.row :=
  [ [("planet", Some "Earth"); ("mass", Some "5.97")];
    [("planet", Some "Earth"); ("mass", Some "6.0")] ]%string.

(** ** Sample data *)

Module Samples.

(** A 2 x 2 opaque image of one color. *)
Definition image : Image.t :=
  Image.mk 2 2 (fun _ _ => Image.rgba 200 100 50 255).

(** A random source: every draw is 1/2. *)
Definition rng : random.state := random.mkState (fun _ => 1 / 2) O.

(** A session: the time scale is set to 5 and the names are switched off. *)
Definition session : list SolarSystemExplorer.event :=
  [SolarSystemExplorer.SetTimeScale 5; SolarSystemExplorer.ToggleNames false].

(** Earth as the catalog has it, at angle 0 on the x axis. *)
Definition earth : Planet.t :=
  Planet.mk "Earth" 9 150 0.02 "#6B93D6" 23.44 0.0 false 0 0 150 0 0 0 [].

(** Three bodies of radius 5 that differ in name and depth only. *)
Definition far_body : Planet.t :=
  Planet.mk "far" 5 100 0.01 "#000000" 0 0 false 0 0 100 0 (-3) 0 [].
Definition near_body : Planet.t :=
  Planet.mk "near" 5 100 0.01 "#000000" 0 0 false 0 0 100 0 3 0 [].
Definition near_twin : Planet.t :=
  Planet.mk "twin" 5 100 0.01 "#000000" 0 0 false 0 0 100 0 3 0 [].

(** A scene holding [bodies], with the view as [__init__] leaves it. *)
Definition scene (bodies : list Planet.t) : SolarSystemExplorer.t :=
  SolarSystemExplorer.mk false 1.0 700 400 1.0 0 true true true true 0.5
    bodies None 0 0 false [] O O [].

(** A 4 x 4 half-transparent image of one color. *)
Definition image4 : Image.t :=
  Image.mk 4 4 (fun _ _ => Image.rgba 255 200 100 128).

End Samples.

(** * Properties *)

(** The state after [__init__], with the catalog and the satellites named. *)
Ltac destruct_init :=
  unfold SolarSystemExplorer.init;
  destruct (SolarSystemExplorer.initialize_planets _) as [?planets0 ?g1];
  destruct (SolarSystemExplorer.initialize_moons _ _) as [?planets1 ?g2].

(** ** Comparisons *)

Lemma Rleb_true (a b : R) : Rleb a b = true <-> a <= b.
Proof. unfold Rleb; destruct (Rle_dec a b); split; intros; auto; discriminate. Qed.

Lemma Rleb_false (a b : R) : Rleb a b = false <-> b < a.
Proof.
  unfold Rleb; destruct (Rle_dec a b); split; intros; auto; try discriminate; lra.
Qed.

Lemma Rltb_true (a b : R) : Rltb a b = true <-> a < b.
Proof. unfold Rltb; destruct (Rlt_dec a b); split; intros; auto; discriminate. Qed.

Lemma Rltb_false (a b : R) : Rltb a b = false <-> b <= a.
Proof.
  unfold Rltb; destruct (Rlt_dec a b); split; intros; auto; try discriminate; lra.
Qed.

Lemma Reqb_true (a b : R) : Reqb a b = true <-> a = b.
Proof. unfold Reqb; destruct (Req_dec_T a b); split; intros; auto; discriminate. Qed.


(** ** Kinematics *)

Section Kinematics.

Lemma moon_update_initial_angle px py ts (m : Moon.t) :
  Moon.initial_angle (Moon.update_position px py ts m) = Moon.initial_angle m.
Proof. reflexivity. Qed.

Lemma moon_reset_update px py ts (m : Moon.t) :
  Moon.forget_position (Moon.reset_position (Moon.update_position px py ts m))
  = Moon.forget_position (Moon.reset_position m).
Proof. reflexivity. Qed.

Lemma moons_reset_update px py ts (ms : list Moon.t) :
  map Moon.forget_position
      (map Moon.reset_position (map (Moon.update_position px py ts) ms))
  = map Moon.forget_position (map Moon.reset_position ms).
Proof.
  induction ms as [|m ms IH]; simpl; [reflexivity|].
  now rewrite IH.
Qed.

Lemma planet_reset_update ts (p : Planet.t) :
  Planet.forget_position (Planet.reset_position (Planet.update_position ts p))
  = Planet.forget_position (Planet.reset_position p).
Proof.
  unfold Planet.forget_position, Planet.reset_position, Planet.update_position.
  simpl. now rewrite moons_reset_update.
Qed.

Lemma planet_reset_advance_all scales : forall p : Planet.t,
  Planet.forget_position (Planet.reset_position (Planet.advance_all scales p))
  = Planet.forget_position (Planet.reset_position p).
Proof.
  induction scales as [|ts scales IH]; intros p; simpl; [reflexivity|].
  unfold Planet.advance_all in *; simpl.
  rewrite IH. apply planet_reset_update.
Qed.

Lemma moon_reset_idempotent (m : Moon.t) :
  Moon.reset_position (Moon.reset_position m) = Moon.reset_position m.
Proof. reflexivity. Qed.

Lemma planet_reset_idempotent (p : Planet.t) :
  Planet.reset_position (Planet.reset_position p) = Planet.reset_position p.
Proof.
  unfold Planet.reset_position; simpl. f_equal.
  rewrite map_map. apply map_ext. intros m. apply moon_reset_idempotent.
Qed.

Lemma Forall2_map_r {A B} (P : A -> B -> Prop) (f : A -> B) (l : list A) :
  (forall a, P a (f a)) -> Forall2 P l (map f l).
Proof. intros H; induction l; simpl; constructor; auto. Qed.

End Kinematics.

(** C1. For every body and every time scale [t], [update_position] adds
    [orbital_speed * t] to the angle and then puts the body at
    [x = distance * cos angle], [y = distance * sin angle * cos i],
    [z = distance * sin angle * sin i], with [i] the inclination converted
    from degrees to radians; every satellite is advanced by the same [t]
    (same number of satellites, in the same order) and ends at the parent's
    new [(x, y)] plus [(dist * cos angle', dist * sin angle')].  A
    satellite has no depth of its own: [Moon.t] has no [z] field, and it
    is drawn at [center + (x, y) * zoom] whatever the 3D mode is. *)
Theorem C1_update_position (body : Planet.t) (t : R) :
  let body' := Planet.update_position t body in
  let i := Planet.orbital_inclination body * (PI / 180) in
  Planet.angle body' = Planet.angle body + Planet.orbital_speed body * t
  /\ Planet.x body' = Planet.distance_from_sun body * cos (Planet.angle body')
  /\ Planet.y body'
     = Planet.distance_from_sun body * sin (Planet.angle body') * cos i
  /\ Planet.z body'
     = Planet.distance_from_sun body * sin (Planet.angle body') * sin i
  /\ Planet.rotation_angle body' = Planet.rotation_angle body + 0.02 * t
  /\ Forall2
       (fun moon moon' =>
          Moon.angle moon' = Moon.angle moon + Moon.orbital_speed moon * t
          /\ Moon.x moon'
             = Planet.x body' + Moon.distance moon * cos (Moon.angle moon')
          /\ Moon.y moon'
             = Planet.y body' + Moon.distance moon * sin (Moon.angle moon')
          /\ Moon.distance moon' = Moon.distance moon
          /\ Moon.orbital_speed moon' = Moon.orbital_speed moon
          /\ Moon.name moon' = Moon.name moon
          /\ forall self : SolarSystemExplorer.t,
               exists radius,
                 SolarSystemExplorer.draw_moon self moon'
                 = SolarSystemExplorer.MoonItem moon'
                     (SolarSystemExplorer.center_x self
                      + Moon.x moon' * SolarSystemExplorer.zoom_factor self)
                     (SolarSystemExplorer.center_y self
                      + Moon.y moon' * SolarSystemExplorer.zoom_factor self)
                     radius)
       (Planet.moon_objects body) (Planet.moon_objects body').
Proof.
  cbv zeta. unfold Planet.update_position, math.radians; simpl.
  repeat split; try reflexivity.
  apply Forall2_map_r. intros moon. simpl.
  repeat split; try reflexivity.
  intros self. eexists. reflexivity.
Qed.

(** C6. After any finite sequence of [update_position] calls with
    arbitrary time scales, [reset_position] yields [angle = initial_angle]
    and [rotation_angle = 0] for the body and [angle = initial_angle] for
    every satellite; the result agrees with that of a reset without the
    calls on every field but the derived positions; and resetting twice
    is resetting once. *)
Theorem C6_reset_left_inverse (body : Planet.t) (scales : list R) :
  let body' := Planet.reset_position (Planet.advance_all scales body) in
  Planet.angle body' = Planet.initial_angle body
  /\ Planet.rotation_angle body' = 0
  /\ map Moon.angle (Planet.moon_objects body')
     = map Moon.initial_angle (Planet.moon_objects body)
  /\ Planet.forget_position body'
     = Planet.forget_position (Planet.reset_position body)
  /\ Planet.reset_position body' = body'
  /\ Planet.reset_position (Planet.reset_position body)
     = Planet.reset_position body.
Proof.
  cbv zeta.
  pose proof (planet_reset_advance_all scales body) as H.
  assert (Ha := f_equal Planet.angle H).
  assert (Hm := f_equal (fun p => map Moon.angle (Planet.moon_objects p)) H).
  simpl in Ha, Hm.
  repeat split.
  - exact Ha.
  - simpl. rewrite !map_map in Hm. rewrite map_map. exact Hm.
  - exact H.
  - apply planet_reset_idempotent.
  - apply planet_reset_idempotent.
Qed.

(** ** Projection and picking *)

Section Projection.

Import SolarSystemExplorer.

Lemma hit_source (self : t) (px py : R) (body : Planet.t) :
  Spec.hit self px py body
  = if Rle_dec
         (sqrt ((px - (center_x self + Planet.x body * zoom_factor self)) ^ 2
                + (py - (if show_3d self
                         then center_y self + Planet.y body * zoom_factor self
                              + Planet.z body * depth_factor self
                                * zoom_factor self
                         else center_y self
                              + Planet.y body * zoom_factor self)) ^ 2))
         (Planet.radius body * zoom_factor self)
    then true else false.
Proof.
  unfold Spec.hit, Spec.screen_x, Spec.screen_y, Spec.screen_radius, Rleb.
  match goal with
  | |- (if Rle_dec ?a _ then _ else _) = (if Rle_dec ?b _ then _ else _) =>
      replace a with b; [reflexivity|]
  end.
  f_equal. destruct (show_3d self); ring.
Qed.

Lemma planet_at_find (self : t) (px py : R) (l : list Planet.t) :
  planet_at self px py l = find (Spec.hit self px py) l.
Proof.
  induction l as [|body l IH]; [reflexivity|].
  cbn [planet_at find]. cbv zeta. rewrite hit_source.
  destruct (Rle_dec _ _); [reflexivity | exact IH].
Qed.

Lemma find_first {A} (f : A -> bool) (l : list A) :
  match find f l with
  | Some a => exists before after,
                l = before ++ a :: after
                /\ f a = true
                /\ forallb (fun b => negb (f b)) before = true
  | None => forallb (fun b => negb (f b)) l = true
  end.
Proof.
  induction l as [|b l IH]; simpl; [reflexivity|].
  destruct (f b) eqn:Hb.
  - exists [], l. repeat split; assumption.
  - destruct (find f l) as [a|].
    + destruct IH as (before & after & -> & Ha & Hbefore).
      exists (b :: before), after. simpl. rewrite Hb. repeat split; assumption.
    + simpl. exact IH.
Qed.

End Projection.

(** C2. For every body, zoom factor and pan offset, [draw_planet] puts the
    body at [screen_x = center_x + x * zoom],
    [screen_y = center_y + y * zoom], plus [z * depth_factor * zoom] on
    [screen_y] exactly in 3D mode, with radius [radius * zoom]; the hit
    test of [get_planet_at_position] uses the same position and radius.
    With zoom 2.0, center (700, 400) and [x = 150] the projected x is
    1000. *)
Theorem C2_projection (self : SolarSystemExplorer.t) (body : Planet.t) :
  let zoom := SolarSystemExplorer.zoom_factor self in
  let center_x := SolarSystemExplorer.center_x self in
  let center_y := SolarSystemExplorer.center_y self in
  let depth_factor := SolarSystemExplorer.depth_factor self in
  let screen_x := center_x + Planet.x body * zoom in
  let screen_y :=
    if SolarSystemExplorer.show_3d self
    then center_y + Planet.y body * zoom + Planet.z body * depth_factor * zoom
    else center_y + Planet.y body * zoom in
  let screen_radius := Planet.radius body * zoom in
  (exists shadow,
     SolarSystemExplorer.draw_planet self body
     = SolarSystemExplorer.PlanetItem body screen_x screen_y screen_radius shadow)
  /\ screen_x = Spec.screen_x center_x zoom body
  /\ screen_y = Spec.screen_y center_y zoom depth_factor
                  (SolarSystemExplorer.show_3d self) body
  /\ screen_radius = Spec.screen_radius zoom body
  /\ (forall px py rest,
        SolarSystemExplorer.planet_at self px py (body :: rest)
        = if Rleb (sqrt ((px - screen_x) * (px - screen_x)
                         + (py - screen_y) * (py - screen_y)))
                  screen_radius
          then Some body
          else SolarSystemExplorer.planet_at self px py rest)
  /\ (let self' :=
        SolarSystemExplorer.set_center 700 400
          (SolarSystemExplorer.set_zoom_factor 2.0 self) in
      let body' :=
        Planet.mk (Planet.name body) (Planet.radius body)
          (Planet.distance_from_sun body) (Planet.orbital_speed body)
          (Planet.color body) (Planet.axial_tilt body)
          (Planet.orbital_inclination body) (Planet.has_rings body)
          (Planet.angle body) (Planet.initial_angle body)
          150 (Planet.y body) (Planet.z body)
          (Planet.rotation_angle body) (Planet.moon_objects body) in
      exists sy radius shadow,
        SolarSystemExplorer.draw_planet self' body'
        = SolarSystemExplorer.PlanetItem body' 1000 sy radius shadow).
Proof.
  cbv zeta.
  assert (Hy : (if SolarSystemExplorer.show_3d self
                then SolarSystemExplorer.center_y self
                     + Planet.y body * SolarSystemExplorer.zoom_factor self
                     + Planet.z body * SolarSystemExplorer.depth_factor self
                       * SolarSystemExplorer.zoom_factor self
                else SolarSystemExplorer.center_y self
                     + Planet.y body * SolarSystemExplorer.zoom_factor self)
               = Spec.screen_y (SolarSystemExplorer.center_y self)
                   (SolarSystemExplorer.zoom_factor self)
                   (SolarSystemExplorer.depth_factor self)
                   (SolarSystemExplorer.show_3d self) body).
  { unfold Spec.screen_y. destruct (SolarSystemExplorer.show_3d self); ring. }
  repeat match goal with |- _ /\ _ => split end.
  - eexists. reflexivity.
  - reflexivity.
  - exact Hy.
  - reflexivity.
  - intros px py rest. rewrite !planet_at_find. cbn [find].
    unfold Spec.hit. cbv zeta. rewrite <- Hy. reflexivity.
  - do 3 eexists. unfold SolarSystemExplorer.draw_planet. simpl.
    f_equal. lra.
Qed.

(** C5. For every scene and every query point, [get_planet_at_position]
    returns the first body in catalog order whose projected screen
    position (3D offset included in 3D mode) is within its screen radius
    of the point: every body in front of it in the catalog is missed; it
    returns [None] exactly when every body is missed, and on the empty
    scene. *)
Theorem C5_pick (self : SolarSystemExplorer.t) (px py : R) :
  SolarSystemExplorer.get_planet_at_position self px py = Spec.pick self px py
  /\ match SolarSystemExplorer.get_planet_at_position self px py with
     | Some body =>
         exists before after,
           SolarSystemExplorer.planets self = before ++ body :: after
           /\ Spec.hit self px py body = true
           /\ forallb (fun b => negb (Spec.hit self px py b)) before = true
     | None =>
         forallb (fun b => negb (Spec.hit self px py b))
                 (SolarSystemExplorer.planets self) = true
     end
  /\ SolarSystemExplorer.get_planet_at_position
       (SolarSystemExplorer.set_planets [] self) px py = None.
Proof.
  unfold SolarSystemExplorer.get_planet_at_position, Spec.pick.
  rewrite planet_at_find. repeat split.
  apply find_first.
Qed.

(** ** Draw order *)

Section StableSort.

Context {A : Type} (key : A -> R).

Local Abbreviation le_key := (Spec.le_key key).
Local Abbreviation same_key := (Spec.same_key key).

Lemma insert_perm (a : A) (l : list A) :
  Permutation (a :: l) (builtins.insert key a l).
Proof.
  induction l as [|b l IH]; simpl; [apply Permutation_refl|].
  destruct (Rltb (key b) (key a)).
  - eapply perm_trans; [apply perm_swap|]. now apply perm_skip.
  - apply Permutation_refl.
Qed.

Lemma sorted_perm (l : list A) : Permutation l (builtins.sorted key l).
Proof.
  induction l as [|a l IH]; simpl; [constructor|].
  eapply perm_trans; [apply perm_skip, IH | apply insert_perm].
Qed.

Lemma insert_forall (P : A -> Prop) (a : A) (l : list A) :
  P a -> Forall P l -> Forall P (builtins.insert key a l).
Proof.
  intros Ha Hl. induction Hl as [|b l Hb Hl IH]; simpl.
  - constructor; [assumption | constructor].
  - destruct (Rltb (key b) (key a)); repeat constructor; assumption.
Qed.

Lemma insert_sorted (a : A) (l : list A) :
  StronglySorted le_key l -> StronglySorted le_key (builtins.insert key a l).
Proof.
  induction 1 as [|b l Hl IH Hb]; simpl.
  - repeat constructor.
  - destruct (Rltb (key b) (key a)) eqn:E.
    + apply Rltb_true in E. constructor; [exact IH|].
      apply insert_forall; [unfold Spec.le_key; lra | exact Hb].
    + apply Rltb_false in E. constructor.
      * constructor; assumption.
      * constructor; [exact E|].
        eapply Forall_impl; [|exact Hb].
        unfold Spec.le_key; intros c Hc; lra.
Qed.

Lemma sorted_sorted (l : list A) : StronglySorted le_key (builtins.sorted key l).
Proof.
  induction l as [|a l IH]; simpl; [constructor | now apply insert_sorted].
Qed.

Lemma insert_filter (k : R) (a : A) (l : list A) :
  filter (same_key k) (builtins.insert key a l) = filter (same_key k) (a :: l).
Proof.
  induction l as [|b l IH]; [reflexivity|].
  cbn [builtins.insert].
  destruct (Rltb (key b) (key a)) eqn:E; [|reflexivity].
  apply Rltb_true in E.
  cbn [filter] in *. rewrite IH.
  destruct (same_key k a) eqn:Ea; [|reflexivity].
  destruct (same_key k b) eqn:Eb; [|reflexivity].
  unfold Spec.same_key in Ea, Eb. apply Reqb_true in Ea, Eb. lra.
Qed.

Lemma sorted_stable (k : R) (l : list A) :
  filter (same_key k) (builtins.sorted key l) = filter (same_key k) l.
Proof.
  induction l as [|a l IH]; [reflexivity|].
  cbn [builtins.sorted]. rewrite insert_filter.
  cbn [filter]. now rewrite IH.
Qed.

Lemma sorted_is_stable_sort (l : list A) :
  Spec.stable_sort_of key l (builtins.sorted key l).
Proof.
  split; [apply sorted_perm|].
  split; [apply sorted_sorted | intros k; apply sorted_stable].
Qed.

(** Sorting a list that is in order already changes nothing. *)
Lemma sorted_id (l : list A) :
  StronglySorted le_key l -> builtins.sorted key l = l.
Proof.
  induction 1 as [|a l Hl IH Ha]; [reflexivity|].
  cbn [builtins.sorted]. rewrite IH.
  destruct l as [|b l]; [reflexivity|].
  cbn [builtins.insert].
  inversion Ha as [|? ? Hab _]; subst.
  destruct (Rltb (key b) (key a)) eqn:E; [|reflexivity].
  apply Rltb_true in E. unfold Spec.le_key in Hab. lra.
Qed.

Lemma same_key_refl (a : A) : same_key (key a) a = true.
Proof. unfold Spec.same_key. now apply Reqb_true. Qed.

Lemma head_is_least (a : A) (l : list A) (c : A) :
  StronglySorted le_key (a :: l) -> In c (a :: l) -> key a <= key c.
Proof.
  intros Hs [->|Hc]; [lra|].
  inversion Hs as [|? ? _ Hall]; subst.
  rewrite Forall_forall in Hall. now apply Hall.
Qed.

(** Order, and the order within each key, determine the list. *)
Lemma stable_sorted_unique (l1 : list A) : forall l2 : list A,
  StronglySorted le_key l1 -> StronglySorted le_key l2 ->
  (forall k, filter (same_key k) l1 = filter (same_key k) l2) ->
  l1 = l2.
Proof.
  induction l1 as [|a l1 IH]; intros [|b l2] H1 H2 H.
  - reflexivity.
  - specialize (H (key b)). cbn [filter] in H.
    rewrite same_key_refl in H. discriminate.
  - specialize (H (key a)). cbn [filter] in H.
    rewrite same_key_refl in H. discriminate.
  - assert (Hab : key a = key b).
    { assert (Ha : In a (filter (same_key (key a)) (b :: l2))).
      { rewrite <- H. cbn [filter]. rewrite same_key_refl. now left. }
      assert (Hb : In b (filter (same_key (key b)) (a :: l1))).
      { rewrite H. cbn [filter]. rewrite same_key_refl. now left. }
      apply filter_In in Ha, Hb.
      pose proof (head_is_least _ _ _ H2 (proj1 Ha)).
      pose proof (head_is_least _ _ _ H1 (proj1 Hb)).
      lra. }
    assert (Hhead := H (key a)). cbn [filter] in Hhead.
    rewrite same_key_refl in Hhead.
    assert (Eb : same_key (key a) b = true)
      by (unfold Spec.same_key; apply Reqb_true; lra).
    rewrite Eb in Hhead. injection Hhead as -> Htail.
    f_equal. apply IH.
    + now inversion H1.
    + now inversion H2.
    + intros k. specialize (H k). cbn [filter] in H.
      destruct (same_key k b); [now injection H | exact H].
Qed.

Lemma stable_sort_unique (l l' : list A) :
  Spec.stable_sort_of key l l' -> l' = builtins.sorted key l.
Proof.
  intros (_ & Hs & Hf).
  apply stable_sorted_unique; [exact Hs | apply sorted_sorted |].
  intros k. rewrite sorted_stable. apply Hf.
Qed.

End StableSort.

Lemma painted_planets_draw (self : SolarSystemExplorer.t) :
  exists f,
    SolarSystemExplorer.canvas (SolarSystemExplorer.draw_solar_system self)
    = f :: SolarSystemExplorer.canvas self
    /\ SolarSystemExplorer.frame_zoom f = SolarSystemExplorer.zoom_factor self
    /\ Spec.painted_planets f = SolarSystemExplorer.planets_sorted self.
Proof.
  eexists. split; [reflexivity|]. split; [reflexivity|].
  unfold Spec.painted_planets. cbn [SolarSystemExplorer.frame_items].
  rewrite !flat_map_app.
  replace (flat_map _ [SolarSystemExplorer.Starfield]) with (@nil Planet.t)
    by reflexivity.
  replace (flat_map _ (if SolarSystemExplorer.show_orbits self
                       then [SolarSystemExplorer.Orbits] else []))
    with (@nil Planet.t) by (destruct (SolarSystemExplorer.show_orbits self);
                             reflexivity).
  replace (flat_map _ [SolarSystemExplorer.draw_sun self]) with (@nil Planet.t)
    by reflexivity.
  cbn [app].
  induction (SolarSystemExplorer.planets_sorted self) as [|p l IH];
    [reflexivity|].
  cbn [flat_map]. rewrite flat_map_app, IH.
  cbn [flat_map SolarSystemExplorer.draw_planet app]. f_equal.
  match goal with |- ?m ++ l = l => assert (E : m = []) end.
  { destruct (SolarSystemExplorer.show_moons self); [|reflexivity].
    induction (Planet.moon_objects p) as [|m ms IHm]; [reflexivity|].
    cbn [map flat_map]. rewrite IHm. reflexivity. }
  rewrite E. reflexivity.
Qed.

(** C3. The bodies are painted in the order [planets_sorted], which is the
    catalog list stably sorted by one numeric key, [z] in 3D mode and the
    constant 0 otherwise: it is a permutation of the catalog, ascending in
    the key, and bodies of equal key keep their catalog order; it is the
    only list with these three properties.  In 3D mode the order is
    ascending in raw [z]; with 3D mode off it is the catalog order. *)
Theorem C3_draw_order (self : SolarSystemExplorer.t) :
  let key := Spec.depth_key (SolarSystemExplorer.show_3d self) in
  let self_3d := SolarSystemExplorer.set_show_3d true self in
  let self_2d := SolarSystemExplorer.set_show_3d false self in
  (exists f,
     SolarSystemExplorer.canvas (SolarSystemExplorer.draw_solar_system self)
     = f :: SolarSystemExplorer.canvas self
     /\ Spec.painted_planets f = SolarSystemExplorer.planets_sorted self)
  /\ Spec.stable_sort_of key (SolarSystemExplorer.planets self)
       (SolarSystemExplorer.planets_sorted self)
  /\ (forall l, Spec.stable_sort_of key (SolarSystemExplorer.planets self) l ->
                l = SolarSystemExplorer.planets_sorted self)
  /\ StronglySorted (fun a b => Planet.z a <= Planet.z b)
       (SolarSystemExplorer.planets_sorted self_3d)
  /\ (forall k,
        filter (fun a => Reqb (Planet.z a) k)
               (SolarSystemExplorer.planets_sorted self_3d)
        = filter (fun a => Reqb (Planet.z a) k) (SolarSystemExplorer.planets self))
  /\ (forall a b, Spec.depth_key false a = Spec.depth_key false b)
  /\ SolarSystemExplorer.planets_sorted self_2d = SolarSystemExplorer.planets self.
Proof.
  cbv zeta. repeat split.
  - destruct (painted_planets_draw self) as (f & Hc & _ & Hp). now exists f.
  - apply sorted_perm.
  - apply (sorted_sorted (fun p => if SolarSystemExplorer.show_3d self
                                   then Planet.z p else 0)).
  - intros k.
    apply (sorted_stable (fun p => if SolarSystemExplorer.show_3d self
                                   then Planet.z p else 0)).
  - intros l Hl. now apply stable_sort_unique in Hl.
  - apply (sorted_sorted Planet.z).
  - intros k. apply (sorted_stable Planet.z).
  - unfold SolarSystemExplorer.planets_sorted. simpl.
    apply sorted_id.
    induction (SolarSystemExplorer.planets self) as [|p l IH]; constructor.
    + exact IH.
    + apply Forall_forall. intros q _. unfold Spec.le_key. lra.
Qed.

(** ** Shading *)

Section Shading.

Import SolarSystemExplorer.

Lemma int_IZR (n : Z) : builtins.int (IZR n) = n.
Proof.
  unfold builtins.int. destruct (Rle_dec 0 (IZR n)) as [H|H].
  - symmetry. apply Int_part_spec. lra.
  - rewrite <- opp_IZR.
    rewrite <- (Int_part_spec (IZR (- n)) (- n)%Z) by lra. lia.
Qed.

(** On a value that is not negative [int] is the floor: the stored
    channel is below the scaled value by less than one unit. *)
Lemma int_floor (v : R) :
  0 <= v -> IZR (builtins.int v) <= v < IZR (builtins.int v) + 1.
Proof.
  intros Hv. unfold builtins.int.
  destruct (Rle_dec 0 v); [|contradiction].
  pose proof (base_Int_part v). lra.
Qed.

Lemma putpixel_same px x y v : Image.putpixel px x y v x y = v.
Proof. unfold Image.putpixel. now rewrite !Nat.eqb_refl. Qed.

Lemma putpixel_other px x y v x' y' :
  (x', y') <> (x, y) -> Image.putpixel px x y v x' y' = px x' y'.
Proof.
  intros H. unfold Image.putpixel.
  destruct (Nat.eqb_spec x' x); destruct (Nat.eqb_spec y' y);
    try reflexivity.
  subst. now contradiction H.
Qed.

Lemma shade_row_from (w h y n : nat) : forall (a : nat) px x' y',
  fold_left (fun px x => Image.putpixel px x y (shade w h x y (px x y)))
            (seq a n) px x' y'
  = if (Nat.eqb y' y && Nat.leb a x' && Nat.ltb x' (a + n))%bool
    then shade w h x' y (px x' y)
    else px x' y'.
Proof.
  induction n as [|n IH]; intros a px x' y'.
  - simpl. destruct (Nat.eqb y' y), (Nat.leb_spec a x'),
      (Nat.ltb_spec x' (a + 0)); simpl; try reflexivity; lia.
  - cbn [seq fold_left]. rewrite IH.
    destruct (Nat.eqb_spec y' y) as [->|Hy]; cbn [andb].
    + destruct (Nat.leb_spec (S a) x'), (Nat.ltb_spec x' (S a + n)),
        (Nat.leb_spec a x'), (Nat.ltb_spec x' (a + S n));
        cbn [andb]; try lia;
        try (rewrite putpixel_other;
             [reflexivity | intros E; injection E; lia]).
      assert (x' = a) by lia. subst. now rewrite putpixel_same.
    + rewrite putpixel_other; [reflexivity|].
      intros E; injection E; intros; contradiction.
Qed.

Lemma shade_row_at (w h y : nat) px x' y' :
  shade_row w h y px x' y'
  = if (Nat.eqb y' y && Nat.ltb x' w)%bool
    then shade w h x' y (px x' y)
    else px x' y'.
Proof.
  unfold shade_row. rewrite shade_row_from.
  now destruct (Nat.eqb y' y).
Qed.

Lemma shade_rows_from (w h n : nat) : forall (b : nat) px x' y',
  fold_left (fun px y => shade_row w h y px) (seq b n) px x' y'
  = if (Nat.ltb x' w && Nat.leb b y' && Nat.ltb y' (b + n))%bool
    then shade w h x' y' (px x' y')
    else px x' y'.
Proof.
  induction n as [|n IH]; intros b px x' y'.
  - simpl. destruct (Nat.ltb x' w), (Nat.leb_spec b y'),
      (Nat.ltb_spec y' (b + 0)); simpl; try reflexivity; lia.
  - cbn [seq fold_left]. rewrite IH, !shade_row_at.
    destruct (Nat.ltb x' w); cbn [andb];
      destruct (Nat.leb_spec (S b) y'), (Nat.ltb_spec y' (S b + n)),
        (Nat.leb_spec b y'), (Nat.ltb_spec y' (b + S n)),
        (Nat.eqb_spec y' b); cbn [andb]; try lia; try reflexivity.
    subst; reflexivity.
Qed.

(** The texture at an in-range pixel is the loop body applied to the
    source pixel; [create_texture_map] returns an image (not [None]) of
    the same size. *)
Lemma create_texture_map_at (img : Image.t) :
  exists out,
    create_texture_map img = Some out
    /\ Image.width out = Image.width img
    /\ Image.height out = Image.height img
    /\ forall x y,
         Image.pixels out x y
         = if (Nat.ltb x (Image.width img) && Nat.ltb y (Image.height img))%bool
           then shade (Image.width img) (Image.height img) x y
                      (Image.pixels img x y)
           else Image.pixels img x y.
Proof.
  eexists. split; [reflexivity|]. repeat split.
  intros x y. cbn [Image.pixels]. rewrite shade_rows_from.
  now destruct (Nat.ltb x (Image.width img)).
Qed.

Lemma intensity_source (d : R) :
  Rmax 0.3 (Rmin 1.0 (1.0 - d * 0.7)) = Spec.intensity d.
Proof. unfold Spec.intensity, Spec.clamp. now rewrite (Rmult_comm d). Qed.

Lemma intensity_bounds (d : R) : 0.3 <= Spec.intensity d <= 1.
Proof.
  unfold Spec.intensity, Spec.clamp, Rmax, Rmin.
  repeat destruct (Rle_dec _ _); lra.
Qed.


(** The loop body in the terms of the contract. *)
Lemma shade_inside (w h x y : nat) (p : Image.pixel) :
  Spec.radial_distance w h x y <= 1 ->
  shade w h x y p
  = let i := Spec.intensity (Spec.radial_distance w h x y) in
    Image.rgba (builtins.int (IZR (Image.red p) * i))
               (builtins.int (IZR (Image.green p) * i))
               (builtins.int (IZR (Image.blue p) * i))
               (Image.alpha p).
Proof.
  intros Hd. unfold shade. cbv zeta.
  fold (Spec.radial_distance w h x y). rewrite intensity_source.
  destruct (Rle_dec _ 1.0); [reflexivity | lra].
Qed.

Lemma shade_outside (w h x y : nat) (p : Image.pixel) :
  1 < Spec.radial_distance w h x y -> shade w h x y p = Image.rgba 0 0 0 0.
Proof.
  intros Hd. unfold shade. cbv zeta.
  fold (Spec.radial_distance w h x y).
  destruct (Rle_dec _ 1.0); [lra | reflexivity].
Qed.


End Shading.



(** ** View state and scheduler *)

Section Invariants.

Import SolarSystemExplorer.

Lemma draw_zoom_positive (s : t) :
  zoom_positive s -> zoom_positive (draw_solar_system s).
Proof.
  intros [Hz Hc]. split; [exact Hz|].
  cbn [draw_solar_system set_canvas canvas]. constructor; assumption.
Qed.

Lemma set_zoom_positive (v : R) (s : t) :
  0 < v -> zoom_positive s -> zoom_positive (set_zoom_factor v s).
Proof. intros Hv [_ Hc]. split; assumption. Qed.

Lemma handle_zoom_positive (e : event) (s : t) :
  zoom_positive s -> zoom_positive (handle e s).
Proof.
  intros H. pose proof H as [Hz Hc].
  destruct e; cbn [handle];
    try (apply draw_zoom_positive; split; assumption);
    try (split; assumption).
  - unfold start_animation.
    destruct (is_running s); cbn [negb]; [exact H|].
    destruct (match animation_thread (set_is_running true s) with
              | Some tid => negb (is_alive tid (set_is_running true s))
              | None => true
              end); split; assumption.
  - unfold reset_view. apply draw_zoom_positive. split; [cbn; lra | exact Hc].
  - unfold zoom_in. apply draw_zoom_positive, set_zoom_positive; [nra | exact H].
  - unfold zoom_out. apply draw_zoom_positive, set_zoom_positive; [|exact H].
    apply Rdiv_lt_0_compat; lra.
  - unfold on_mouse_wheel. apply draw_zoom_positive.
    destruct (0 <? delta)%Z; apply set_zoom_positive; try exact H; [nra|].
    apply Rdiv_lt_0_compat; lra.
  - unfold on_canvas_drag. destruct (dragging s); [|exact H].
    apply draw_zoom_positive. split; assumption.
  - unfold animate_iteration.
    destruct (is_alive tid s); [|exact H].
    destruct (is_running s); split; assumption.
  - unfold update_gui. destruct (pending s); [exact H|].
    apply draw_zoom_positive. split; assumption.
Qed.

Lemma run_zoom_positive (events : list event) : forall s : t,
  zoom_positive s -> zoom_positive (run events s).
Proof.
  induction events as [|e events IH]; intros s H; [exact H|].
  apply IH, handle_zoom_positive, H.
Qed.

Lemma init_zoom_positive (now : R) (g : random.state) :
  zoom_positive (fst (init now g)).
Proof.
  destruct_init.
  cbn [fst]. apply draw_zoom_positive. split; [cbn; lra | constructor].
Qed.

Lemma draw_one_loop (s : t) : one_loop s -> one_loop (draw_solar_system s).
Proof. intros H. exact H. Qed.





End Invariants.

Lemma zoom_calls_render (calls : list SolarSystemExplorer.zoom_call) :
  forall s : SolarSystemExplorer.t,
    List.length (SolarSystemExplorer.canvas
                   (SolarSystemExplorer.run
                      (map SolarSystemExplorer.zoom_event calls) s))
    = (List.length calls + List.length (SolarSystemExplorer.canvas s))%nat.
Proof.
  induction calls as [|c calls IH]; intros s; [reflexivity|].
  cbn [map SolarSystemExplorer.run fold_left].
  fold (SolarSystemExplorer.run (map SolarSystemExplorer.zoom_event calls)
          (SolarSystemExplorer.handle (SolarSystemExplorer.zoom_event c) s)).
  rewrite IH.
  destruct c as [| |delta]; cbn [SolarSystemExplorer.zoom_event
                                   SolarSystemExplorer.handle].
  - cbn. lia.
  - cbn. lia.
  - unfold SolarSystemExplorer.on_mouse_wheel.
    destruct (0 <? delta)%Z; cbn; lia.
Qed.

(** C8. Starting from the initial state (zoom factor 1.0), after every
    finite sequence of calls of the zoom mutators (the two buttons and the
    mouse wheel) the zoom factor is positive, every call has rendered one
    frame, and every frame ever rendered was drawn with a zoom factor that
    is neither zero nor negative. *)
Theorem C8_zoom_never_degenerate (now : R) (g : random.state)
    (calls : list SolarSystemExplorer.zoom_call) :
  let s0 := fst (SolarSystemExplorer.init now g) in
  let s := SolarSystemExplorer.run
             (map SolarSystemExplorer.zoom_event calls) s0 in
  SolarSystemExplorer.zoom_factor s0 = 1.0
  /\ 0 < SolarSystemExplorer.zoom_factor s
  /\ List.length (SolarSystemExplorer.canvas s) = S (List.length calls)
  /\ Forall (fun f => 0 < SolarSystemExplorer.frame_zoom f
                      /\ SolarSystemExplorer.frame_zoom f <> 0
                      /\ ~ SolarSystemExplorer.frame_zoom f < 0)
            (SolarSystemExplorer.canvas s).
Proof.
  cbv zeta.
  pose proof (run_zoom_positive (map SolarSystemExplorer.zoom_event calls) _
                (init_zoom_positive now g)) as [Hz Hc].
  split; [|split; [exact Hz|split]].
  - destruct_init.
    reflexivity.
  - rewrite zoom_calls_render.
    destruct_init.
    cbn. lia.
  - eapply Forall_impl; [|exact Hc]. intros f Hf. cbv beta. lra.
Qed.

(** The same holds along every sequence of events whatever. *)
Lemma reachable_zoom_positive (s : SolarSystemExplorer.t) :
  SolarSystemExplorer.reachable s -> zoom_positive s.
Proof.
  intros (now & g & events & ->).
  apply run_zoom_positive, init_zoom_positive.
Qed.

(** On binary64 the zoom factor does not reach zero either: 5000 calls of
    [zoom_out] end at a positive subnormal number that [zoom_out] and the
    wheel leave where it is, and 5000 calls of [zoom_in] end at a positive
    value (infinity) that no zoom mutator changes. *)
Example zoom_binary64_extremes :
  let bottom := Nat.iter 5000 Binary64.zoom_out Binary64.one in
  let top := Nat.iter 5000 Binary64.zoom_in Binary64.one in
  Binary64.positive bottom = true
  /\ Binary64.same (Binary64.zoom_out bottom) bottom = true
  /\ Binary64.same (Binary64.wheel_down bottom) bottom = true
  /\ Binary64.positive top = true
  /\ Binary64.same (Binary64.zoom_in top) top = true
  /\ Binary64.same (Binary64.wheel_up top) top = true
  /\ Binary64.same (Binary64.zoom_out top) top = true
  /\ Binary64.same (Binary64.wheel_down top) top = true.
Proof. vm_compute. repeat split. Qed.




(** ** Construction and reset *)

Section Snapshot.

Import SolarSystemExplorer.

Local Abbreviation at_rest := Spec.at_rest.

Lemma moons_from_at_rest infos : forall g,
  map Moon.angle (fst (moons_from infos g))
  = map Moon.initial_angle (fst (moons_from infos g)).
Proof.
  induction infos as [|[[[[name radius] distance] speed] color] infos IH];
    intros g; [reflexivity|].
  cbn [moons_from]. unfold Moon.init, random.uniform, random.random.
  specialize (IH (random.mkState (random.outputs g) (S (random.consumed g)))).
  destruct (moons_from infos _) as [moons g2].
  cbn [fst map] in *. now rewrite IH.
Qed.

Lemma planets_from_at_rest data : forall g,
  Forall at_rest (fst (planets_from data g)).
Proof.
  induction data
    as [|[[[[[[[name radius] distance] speed] color] tilt] incl] rings] data IH];
    intros g; [constructor|].
  cbn [planets_from]. unfold Planet.init, random.uniform, random.random.
  specialize (IH (random.mkState (random.outputs g) (S (random.consumed g)))).
  destruct (planets_from data _) as [planets g2].
  cbn [fst] in *. constructor; [reflexivity | exact IH].
Qed.

Lemma initialize_moons_at_rest planets : forall g,
  Forall at_rest planets -> Forall at_rest (fst (initialize_moons planets g)).
Proof.
  induction planets as [|p planets IH]; intros g H; [constructor|].
  inversion H as [|? ? Hp Hrest]; subst.
  cbn [initialize_moons].
  destruct (lookup (Planet.name p) moon_data) as [infos|].
  - pose proof (moons_from_at_rest infos g) as Hm.
    destruct (moons_from infos g) as [moons g1]. cbn [fst] in Hm.
    specialize (IH g1 Hrest).
    destruct (initialize_moons planets g1) as [rest' g2]. cbn [fst] in *.
    constructor; [|exact IH].
    unfold Spec.at_rest, Spec.angles, Spec.snapshot in *.
    cbn [Planet.append_moons Planet.angle Planet.initial_angle
         Planet.moon_objects].
    injection Hp as Ha Hms. rewrite !map_app. congruence.
  - specialize (IH g Hrest).
    destruct (initialize_moons planets g) as [rest' g2]. cbn [fst] in *.
    constructor; assumption.
Qed.

Lemma init_all_at_rest (now : R) (g : random.state) :
  Forall at_rest (planets (fst (init now g))).
Proof.
  unfold init, initialize_planets.
  pose proof (planets_from_at_rest planets_data g) as H0.
  destruct (planets_from planets_data g) as [planets0 g1]. cbn [fst] in H0.
  pose proof (initialize_moons_at_rest planets0 g1 H0) as H1.
  destruct (initialize_moons planets0 g1) as [planets1 g2]. cbn [fst] in *.
  exact H1.
Qed.

Lemma init_at_rest (now : R) (g : random.state) :
  map Spec.angles (planets (fst (init now g)))
  = map Spec.snapshot (planets (fst (init now g))).
Proof.
  induction (init_all_at_rest now g) as [|p l Hp Hl IH]; [reflexivity|].
  cbn [map]. now rewrite Hp, IH.
Qed.

Lemma snapshot_reset (p : Planet.t) :
  Spec.snapshot (Planet.reset_position p) = Spec.snapshot p.
Proof.
  unfold Spec.snapshot. cbn. now rewrite map_map.
Qed.

Lemma snapshot_update (ts : R) (p : Planet.t) :
  Spec.snapshot (Planet.update_position ts p) = Spec.snapshot p.
Proof.
  unfold Spec.snapshot. cbn. now rewrite map_map.
Qed.

Lemma angles_reset (p : Planet.t) :
  Spec.angles (Planet.reset_position p) = Spec.snapshot p.
Proof.
  unfold Spec.angles, Spec.snapshot. cbn. now rewrite map_map.
Qed.

Lemma handle_snapshot (e : event) (s : t) :
  map Spec.snapshot (planets (handle e s)) = map Spec.snapshot (planets s).
Proof.
  destruct e; cbn [handle]; try reflexivity.
  - unfold start_animation. destruct (is_running s); cbn [negb]; [reflexivity|].
    destruct (match animation_thread _ with
              | Some tid => _
              | None => true
              end); reflexivity.
  - cbn. rewrite map_map. apply map_ext, snapshot_reset.
  - unfold on_mouse_wheel. destruct (0 <? delta)%Z; reflexivity.
  - unfold on_canvas_drag. destruct (dragging s); reflexivity.
  - unfold animate_iteration. destruct (is_alive tid s); [|reflexivity].
    destruct (is_running s); [|reflexivity].
    cbn. rewrite map_map. apply map_ext, snapshot_update.
  - unfold update_gui. destruct (pending s); reflexivity.
Qed.

Lemma run_snapshot (events : list event) : forall s : t,
  map Spec.snapshot (planets (run events s)) = map Spec.snapshot (planets s).
Proof.
  induction events as [|e events IH]; intros s; [reflexivity|].
  cbn [run fold_left]. fold (run events (handle e s)).
  rewrite IH. apply handle_snapshot.
Qed.

Lemma reset_view_angles (s : t) :
  map Spec.angles (planets (reset_view s)) = map Spec.snapshot (planets s).
Proof.
  cbn. rewrite map_map. apply map_ext, angles_reset.
Qed.

(** After any session, [reset_view] puts every angle back to the value
    it had when the application was constructed. *)
Lemma reset_view_initial (now : R) (g : random.state) (events : list event) :
  map Spec.angles (planets (reset_view (run events (fst (init now g)))))
  = map Spec.angles (planets (fst (init now g))).
Proof.
  now rewrite reset_view_angles, run_snapshot, init_at_rest.
Qed.

End Snapshot.

(** C7, as the design document words it, fails: after a session that
    changed the time scale and switched the names off, [reset_view] leaves
    both as they are, so the View State is not back at its defaults. *)
Lemma C7_view_state_not_restored :
  let s0 := fst (SolarSystemExplorer.init 0 Samples.rng) in
  let s := SolarSystemExplorer.run Samples.session s0 in
  SolarSystemExplorer.reachable s
  /\ SolarSystemExplorer.time_scale (SolarSystemExplorer.reset_view s) = 5
  /\ SolarSystemExplorer.show_names (SolarSystemExplorer.reset_view s) = false
  /\ ~ Spec.reset_contract 0 s0 s (SolarSystemExplorer.reset_view s).
Proof.
  cbv zeta. split; [|split; [|split]].
  - exists 0, Samples.rng, Samples.session. reflexivity.
  - reflexivity.
  - reflexivity.
  - intros (_ & _ & _ & Hv).
    destruct Hv as (_ & _ & _ & _ & Hn & _).
    lazy in Hn. discriminate Hn.
Qed.

(** C7, amended. From every state, [reset_view] puts the zoom factor to
    1.0 and the pan offset to (700, 400), resets every body (angle back to
    the initial angle, rotation angle 0, every satellite's angle back to
    its initial angle), and renders exactly one frame, from the state
    after the reset; it leaves the Running/Stopped flag and the
    background loops alone, and also the visibility toggles, the
    simulated date and the time scale.  After any session the angles are
    again those the application was constructed with. *)
Theorem C7_reset_view (self : SolarSystemExplorer.t) (now : R)
    (g : random.state) (events : list SolarSystemExplorer.event) :
  let s' := SolarSystemExplorer.reset_view self in
  let s0 := fst (SolarSystemExplorer.init now g) in
  SolarSystemExplorer.zoom_factor s' = 1.0
  /\ SolarSystemExplorer.center_x s' = 700
  /\ SolarSystemExplorer.center_y s' = 400
  /\ SolarSystemExplorer.planets s'
     = map Planet.reset_position (SolarSystemExplorer.planets self)
  /\ map Spec.angles (SolarSystemExplorer.planets s')
     = map Spec.snapshot (SolarSystemExplorer.planets self)
  /\ Forall (fun p => Planet.rotation_angle p = 0)
            (SolarSystemExplorer.planets s')
  /\ (exists f,
        SolarSystemExplorer.canvas s' = f :: SolarSystemExplorer.canvas self
        /\ SolarSystemExplorer.frame_zoom f = 1.0
        /\ Spec.painted_planets f = SolarSystemExplorer.planets_sorted s')
  /\ SolarSystemExplorer.is_running s' = SolarSystemExplorer.is_running self
  /\ SolarSystemExplorer.alive s' = SolarSystemExplorer.alive self
  /\ SolarSystemExplorer.animation_thread s'
     = SolarSystemExplorer.animation_thread self
  /\ SolarSystemExplorer.show_orbits s' = SolarSystemExplorer.show_orbits self
  /\ SolarSystemExplorer.show_names s' = SolarSystemExplorer.show_names self
  /\ SolarSystemExplorer.show_moons s' = SolarSystemExplorer.show_moons self
  /\ SolarSystemExplorer.show_3d s' = SolarSystemExplorer.show_3d self
  /\ SolarSystemExplorer.current_date s' = SolarSystemExplorer.current_date self
  /\ SolarSystemExplorer.time_scale s' = SolarSystemExplorer.time_scale self
  /\ map Spec.angles
       (SolarSystemExplorer.planets
          (SolarSystemExplorer.reset_view (SolarSystemExplorer.run events s0)))
     = map Spec.angles (SolarSystemExplorer.planets s0).
Proof.
  cbv zeta.
  repeat match goal with |- _ /\ _ => split end; try reflexivity.
  - apply reset_view_angles.
  - cbn. apply Forall_forall. intros p Hp.
    apply in_map_iff in Hp as (q & <- & _). reflexivity.
  - unfold SolarSystemExplorer.reset_view.
    destruct (painted_planets_draw
                (SolarSystemExplorer.set_planets
                   (map Planet.reset_position
                        (SolarSystemExplorer.planets
                           (SolarSystemExplorer.set_center 700 400
                              (SolarSystemExplorer.set_zoom_factor 1.0 self))))
                   (SolarSystemExplorer.set_center 700 400
                      (SolarSystemExplorer.set_zoom_factor 1.0 self))))
      as (f & Hc & Hz & Hp).
    exists f. repeat split; assumption.
  - apply reset_view_initial.
Qed.

(** ** Random starting angles *)

Section RandomStart.

Lemma uniform_range (g : random.state) :
  random.valid g ->
  fst (random.uniform 0 (2 * math.pi) g)
  = 2 * PI * random.outputs g (random.consumed g)
  /\ 0 <= fst (random.uniform 0 (2 * math.pi) g) < 2 * PI.
Proof.
  intros Hg. specialize (Hg (random.consumed g)).
  unfold random.uniform, random.random, math.pi. cbn [fst].
  pose proof PI_RGT_0 as Hpi.
  split; [ring | nra].
Qed.

Lemma uniform_consumes (a b : R) (g : random.state) :
  snd (random.uniform a b g)
  = random.mkState (random.outputs g) (S (random.consumed g)).
Proof. reflexivity. Qed.

Lemma valid_consumed (g : random.state) (n : nat) :
  random.valid g -> random.valid (random.mkState (random.outputs g) n).
Proof. intros Hg k. apply Hg. Qed.

Lemma init_angle_range (g : random.state) :
  random.valid g ->
  0 <= 0 + (2 * math.pi - 0) * random.outputs g (random.consumed g) < 2 * PI.
Proof.
  intros Hg. specialize (Hg (random.consumed g)).
  unfold math.pi. pose proof PI_RGT_0. nra.
Qed.

Lemma moons_from_in_range infos : forall g,
  random.valid g ->
  Forall (fun moon => 0 <= Moon.angle moon < 2 * PI)
         (fst (SolarSystemExplorer.moons_from infos g))
  /\ random.valid (snd (SolarSystemExplorer.moons_from infos g)).
Proof.
  induction infos as [|[[[[name radius] distance] speed] color] infos IH];
    intros g Hg; [split; [constructor | exact Hg]|].
  cbn [SolarSystemExplorer.moons_from].
  unfold Moon.init, random.uniform, random.random.
  destruct (IH _ (valid_consumed g (S (random.consumed g)) Hg)) as [Hm Hv].
  destruct (SolarSystemExplorer.moons_from infos _) as [moons g2].
  cbn [fst snd] in *. split; [|exact Hv].
  constructor; [|exact Hm]. cbn [Moon.angle]. now apply init_angle_range.
Qed.

Lemma planets_from_in_range data : forall g,
  random.valid g ->
  Forall Spec.in_range (fst (SolarSystemExplorer.planets_from data g))
  /\ random.valid (snd (SolarSystemExplorer.planets_from data g)).
Proof.
  induction data
    as [|[[[[[[[name radius] distance] speed] color] tilt] incl] rings] data IH];
    intros g Hg; [split; [constructor | exact Hg]|].
  cbn [SolarSystemExplorer.planets_from].
  unfold Planet.init, random.uniform, random.random.
  destruct (IH _ (valid_consumed g (S (random.consumed g)) Hg)) as [Hp Hv].
  destruct (SolarSystemExplorer.planets_from data _) as [planets g2].
  cbn [fst snd] in *. split; [|exact Hv].
  constructor; [|exact Hp].
  split; [cbn [Planet.angle]; now apply init_angle_range | constructor].
Qed.

Lemma initialize_moons_in_range planets : forall g,
  random.valid g -> Forall Spec.in_range planets ->
  Forall Spec.in_range (fst (SolarSystemExplorer.initialize_moons planets g))
  /\ random.valid (snd (SolarSystemExplorer.initialize_moons planets g)).
Proof.
  induction planets as [|p planets IH]; intros g Hg H;
    [split; [constructor | exact Hg]|].
  inversion H as [|? ? [Hpa Hpm] Hrest]; subst.
  cbn [SolarSystemExplorer.initialize_moons].
  destruct (SolarSystemExplorer.lookup (Planet.name p)
              SolarSystemExplorer.moon_data) as [infos|].
  - destruct (moons_from_in_range infos g Hg) as [Hm Hv].
    destruct (SolarSystemExplorer.moons_from infos g) as [moons g1].
    cbn [fst snd] in Hm, Hv.
    destruct (IH g1 Hv Hrest) as [Hr Hv2].
    destruct (SolarSystemExplorer.initialize_moons planets g1) as [rest' g2].
    cbn [fst snd] in *. split; [|exact Hv2].
    constructor; [|exact Hr].
    split; [exact Hpa|]. cbn [Planet.append_moons Planet.moon_objects].
    apply Forall_app. split; assumption.
  - destruct (IH g Hg Hrest) as [Hr Hv2].
    destruct (SolarSystemExplorer.initialize_moons planets g) as [rest' g2].
    cbn [fst snd] in *. split; [|exact Hv2].
    constructor; [split; assumption | exact Hr].
Qed.

(** Every body and every satellite of the freshly constructed application
    starts at an angle of [0, 2*pi). *)
Lemma init_in_range (now : R) (g : random.state) :
  random.valid g ->
  Forall Spec.in_range
         (SolarSystemExplorer.planets (fst (SolarSystemExplorer.init now g))).
Proof.
  intros Hg. unfold SolarSystemExplorer.init, SolarSystemExplorer.initialize_planets.
  destruct (planets_from_in_range SolarSystemExplorer.planets_data g Hg)
    as [H0 Hv0].
  destruct (SolarSystemExplorer.planets_from SolarSystemExplorer.planets_data g)
    as [planets0 g1].
  cbn [fst snd] in H0, Hv0.
  destruct (initialize_moons_in_range planets0 g1 Hv0 H0) as [H1 _].
  destruct (SolarSystemExplorer.initialize_moons planets0 g1) as [planets1 g2].
  exact H1.
Qed.

End RandomStart.

(** C10. Whatever the catalog row, the constructor of a body and the
    constructor of a satellite take the starting angle from the next draw
    [u] of the random source, as [0 + (2*pi - 0) * u], which lies in
    [0, 2*pi) for [u] in [0, 1); [initial_angle] is that same angle, so a
    reset after any sequence of advances returns to the drawn angle; every
    body and satellite of the freshly constructed application has its
    angle in [0, 2*pi) and equal to its initial angle; and with the same
    catalog row, two runs whose draws differ start at different angles. *)
Theorem C10_random_initial_angle (g : random.state) (Hg : random.valid g)
    (name color : string) (radius distance speed tilt inclination : R)
    (rings : bool) (scales : list R) (now : R) :
  let u := random.outputs g (random.consumed g) in
  let body :=
    fst (Planet.init name radius distance speed color tilt inclination rings g) in
  let moon := fst (Moon.init name radius distance speed color g) in
  Planet.angle body = 2 * PI * u
  /\ 0 <= Planet.angle body < 2 * PI
  /\ Planet.initial_angle body = Planet.angle body
  /\ Planet.angle (Planet.reset_position (Planet.advance_all scales body))
     = 2 * PI * u
  /\ Moon.angle moon = 2 * PI * u
  /\ 0 <= Moon.angle moon < 2 * PI
  /\ Moon.initial_angle moon = Moon.angle moon
  /\ Moon.angle (Moon.reset_position
                   (Moon.update_position (Planet.x body) (Planet.y body) 1 moon))
     = 2 * PI * u
  /\ Forall Spec.in_range
       (SolarSystemExplorer.planets (fst (SolarSystemExplorer.init now g)))
  /\ Forall Spec.at_rest
       (SolarSystemExplorer.planets (fst (SolarSystemExplorer.init now g)))
  /\ forall g2 : random.state,
       random.outputs g2 (random.consumed g2) <> u ->
       Planet.angle
         (fst (Planet.init name radius distance speed color tilt inclination
                 rings g2))
       <> Planet.angle body
       /\ Moon.angle (fst (Moon.init name radius distance speed color g2))
          <> Moon.angle moon.
Proof.
  cbv zeta.
  destruct (uniform_range g Hg) as [Hu Hr].
  assert (Hb : Planet.angle
                 (fst (Planet.init name radius distance speed color tilt
                         inclination rings g))
               = fst (random.uniform 0 (2 * math.pi) g)) by reflexivity.
  assert (Hm : Moon.angle (fst (Moon.init name radius distance speed color g))
               = fst (random.uniform 0 (2 * math.pi) g)) by reflexivity.
  repeat match goal with |- _ /\ _ => split end; try reflexivity.
  - now rewrite Hb.
  - rewrite Hb. apply Hr.
  - rewrite Hb. apply Hr.
  - pose proof (planet_reset_advance_all scales
                  (fst (Planet.init name radius distance speed color tilt
                          inclination rings g))) as H.
    apply (f_equal Planet.angle) in H. cbn [Planet.forget_position Planet.angle] in H.
    rewrite H. cbn [Planet.reset_position Planet.angle]. rewrite <- Hu. reflexivity.
  - now rewrite Hm.
  - rewrite Hm. apply Hr.
  - rewrite Hm. apply Hr.
  - cbn [Moon.reset_position Moon.update_position Moon.angle Moon.initial_angle].
    rewrite <- Hu. reflexivity.
  - now apply init_in_range.
  - apply init_all_at_rest.
  - intros g2 Hne.
    pose proof PI_RGT_0 as Hpi.
    assert (E : 2 * PI * random.outputs g2 (random.consumed g2)
                <> 2 * PI * random.outputs g (random.consumed g)) by nra.
    unfold Planet.init, Moon.init, random.uniform, random.random, math.pi.
    cbn [fst Planet.angle Moon.angle].
    split; intros H; apply E; lra.
Qed.

(** C10 for Earth with the sample random source, whose draws are all 1/2:
    the starting angle is [2 * PI * (1 / 2)]. *)
Lemma C10_random_initial_angle_witness :
  Planet.angle
    (fst (Planet.init "Earth" 9 150 0.02 "#6B93D6" 23.44 0.0 false Samples.rng))
  = 2 * PI * (1 / 2).
Proof.
  refine (proj1 (C10_random_initial_angle Samples.rng _
                   "Earth"%string "#6B93D6"%string 9 150 0.02 23.44 0.0 false []
                   0)).
  intros n. simpl. lra.
Defined.

(** ** Scenarios *)

(** An orbit of inclination 0 stays in the plane: [z = 0] after every
    tick. *)
Lemma flat_orbit (t : R) (body : Planet.t) :
  Planet.orbital_inclination body = 0 ->
  Planet.z (Planet.update_position t body) = 0.
Proof.
  intros Hi. cbn. unfold math.radians. rewrite Hi, Rmult_0_l, sin_0. ring.
Qed.

(** Earth, one tick at time scale 1.0. *)
Example earth_tick :
  Planet.angle (Planet.update_position 1.0 Samples.earth) = 0.02
  /\ Planet.x (Planet.update_position 1.0 Samples.earth) = 150 * cos 0.02
  /\ Planet.z (Planet.update_position 1.0 Samples.earth) = 0.
Proof.
  split; [cbn; lra|]. split.
  - cbn. f_equal. f_equal. lra.
  - apply flat_orbit. cbn. lra.
Qed.

(** Resetting does not recompute the derived position: it is the one of
    the last tick until the next tick. *)
Example reset_keeps_position (t : R) (body : Planet.t) :
  Planet.x (Planet.reset_position (Planet.update_position t body))
  = Planet.distance_from_sun body
    * cos (Planet.angle body + Planet.orbital_speed body * t).
Proof. reflexivity. Qed.

Lemma sqrt_le_of_sqr (v r : R) : 0 <= r -> v <= r * r -> sqrt v <= r.
Proof.
  intros Hr Hv. rewrite <- (sqrt_square r Hr). now apply sqrt_le_1_alt.
Qed.

Lemma sqrt_gt_of_sqr (v r : R) : 0 <= r -> r * r < v -> r < sqrt v.
Proof.
  intros Hr Hv. rewrite <- (sqrt_square r Hr) at 1.
  apply sqrt_lt_1_alt. split; [nra | exact Hv].
Qed.

(** Earth is drawn at (850, 400) with radius 9: a click on its rim hits
    it, a click one pixel further out hits nothing. *)
Example pick_earth :
  SolarSystemExplorer.get_planet_at_position
    (Samples.scene [Samples.earth]) 859 400 = Some Samples.earth
  /\ SolarSystemExplorer.get_planet_at_position
       (Samples.scene [Samples.earth]) 860 400 = None.
Proof.
  unfold SolarSystemExplorer.get_planet_at_position. cbn. split.
  - destruct (Rle_dec _ _) as [H|H]; [reflexivity|].
    exfalso. apply H. apply sqrt_le_of_sqr; lra.
  - destruct (Rle_dec _ _) as [H|H]; [|reflexivity].
    exfalso. apply Rle_not_lt in H. apply H.
    replace (9 * 1.0) with 9 by lra. apply sqrt_gt_of_sqr; lra.
Qed.

(** Of two bodies at the same place the first of the catalog is picked; in
    3D mode the place includes the depth offset [3 * 0.5]. *)
Example pick_first_of_two :
  SolarSystemExplorer.get_planet_at_position
    (Samples.scene [Samples.near_body; Samples.near_twin]) 800 401.5
  = Some Samples.near_body.
Proof.
  unfold SolarSystemExplorer.get_planet_at_position. cbn.
  destruct (Rle_dec _ _) as [H|H]; [reflexivity|].
  exfalso. apply H. apply sqrt_le_of_sqr; lra.
Qed.

(** In 3D mode the far body is painted first and the two near ones keep
    their catalog order; in 2D mode the catalog order is kept. *)
Example draw_order_of_three :
  let catalog := [Samples.near_body; Samples.far_body; Samples.near_twin] in
  SolarSystemExplorer.planets_sorted (Samples.scene catalog)
  = [Samples.far_body; Samples.near_body; Samples.near_twin]
  /\ SolarSystemExplorer.planets_sorted
       (SolarSystemExplorer.set_show_3d false (Samples.scene catalog))
     = catalog.
Proof.
  cbv zeta. unfold SolarSystemExplorer.planets_sorted.
  split;
    repeat (cbn;
            match goal with
            | |- context [Rltb ?a ?b] =>
                first [ rewrite (proj2 (Rltb_true a b)) by lra
                      | rewrite (proj2 (Rltb_false a b)) by lra ]
            end);
    reflexivity.
Qed.

(** Start, pause, start leaves the first loop alone; once that loop has
    seen the pause and ended, a start spawns a second one. *)
Example scheduler_trace :
  let s := Samples.scene [] in
  SolarSystemExplorer.alive
    (SolarSystemExplorer.run
       [SolarSystemExplorer.StartAnimation; SolarSystemExplorer.PauseAnimation;
        SolarSystemExplorer.StartAnimation] s) = [0%nat]
  /\ SolarSystemExplorer.alive
       (SolarSystemExplorer.run
          [SolarSystemExplorer.StartAnimation; SolarSystemExplorer.PauseAnimation;
           SolarSystemExplorer.AnimateIteration 0;
           SolarSystemExplorer.StartAnimation] s) = [1%nat].
Proof. split; reflexivity. Qed.

Lemma int_between (v : R) (n : Z) :
  0 <= v -> IZR n <= v < IZR n + 1 -> builtins.int v = n.
Proof.
  intros Hv Hn. unfold builtins.int.
  destruct (Rle_dec 0 v); [|contradiction].
  symmetry. apply Int_part_spec. lra.
Qed.

(** The 4 x 4 image: the pixel half way to the right rim has intensity
    0.65, and 255 * 0.65 = 165.75 is stored as 165; the corner pixel lies
    outside the disc. *)
Example shade_image4 :
  SolarSystemExplorer.shade 4 4 3 2 (Image.rgba 255 200 100 128)
  = Image.rgba 165 130 65 128
  /\ SolarSystemExplorer.shade 4 4 0 0 (Image.rgba 255 200 100 128)
     = Image.rgba 0 0 0 0
  /\ exists out,
       SolarSystemExplorer.create_texture_map Samples.image4 = Some out
       /\ Image.pixels out 3 2 = Image.rgba 165 130 65 128
       /\ Image.pixels out 0 0 = Image.rgba 0 0 0 0.
Proof.
  assert (H32 : SolarSystemExplorer.shade 4 4 3 2 (Image.rgba 255 200 100 128)
                = Image.rgba 165 130 65 128).
  { unfold SolarSystemExplorer.shade. cbv zeta. simpl INR.
    match goal with
    | |- context [sqrt ?v] => replace v with (0.5 * 0.5) by lra
    end.
    rewrite sqrt_square by lra.
    destruct (Rle_dec 0.5 1.0) as [_|H]; [|lra].
    assert (Hi : Rmax 0.3 (Rmin 1.0 (1.0 - 0.5 * 0.7)) = 0.65).
    { unfold Rmax, Rmin. repeat destruct (Rle_dec _ _); lra. }
    rewrite Hi. cbn [Image.red Image.green Image.blue Image.alpha].
    rewrite (int_between (255 * 0.65) 165), (int_between (200 * 0.65) 130),
      (int_between (100 * 0.65) 65) by lra.
    reflexivity. }
  assert (H00 : SolarSystemExplorer.shade 4 4 0 0 (Image.rgba 255 200 100 128)
                = Image.rgba 0 0 0 0).
  { unfold SolarSystemExplorer.shade. cbv zeta. simpl INR.
    destruct (Rle_dec _ 1.0) as [H|_]; [|reflexivity].
    exfalso. apply Rle_not_lt in H. apply H.
    replace 1.0 with 1 by lra. apply sqrt_gt_of_sqr; [lra|].
    replace ((0 - (1 + 1 + 1 + 1) / 2) / ((1 + 1 + 1 + 1) / 2)) with (-1) by field.
    lra. }
  split; [exact H32|]. split; [exact H00|].
  destruct (create_texture_map_at Samples.image4) as (out & Ho & _ & _ & Hpx).
  exists out. split; [exact Ho|].
  rewrite !Hpx. cbn [Samples.image4 Image.width Image.height Image.pixels
                      Nat.ltb Nat.leb andb].
  split; assumption.
Qed.

(** * Further properties of the source *)

(** ** Orbits *)

Section Orbits.



End Orbits.



(** ** Resetting and the screen *)

Section ResetScreen.

Import SolarSystemExplorer.

Lemma insert_map {A : Type} (key : A -> R) (f : A -> A) (a : A) (l : list A) :
  (forall b, key (f b) = key b) ->
  builtins.insert key (f a) (map f l) = map f (builtins.insert key a l).
Proof.
  intros Hk. induction l as [|b l IH]; [reflexivity|].
  cbn [map builtins.insert]. rewrite !Hk.
  destruct (Rltb (key b) (key a)); [|reflexivity].
  cbn [map]. now rewrite IH.
Qed.

(** Sorting commutes with a change of the elements that keeps the keys. *)
Lemma sorted_map {A : Type} (key : A -> R) (f : A -> A) (l : list A) :
  (forall b, key (f b) = key b) ->
  builtins.sorted key (map f l) = map f (builtins.sorted key l).
Proof.
  intros Hk. induction l as [|a l IH]; [reflexivity|].
  cbn [map builtins.sorted]. rewrite IH. now apply insert_map.
Qed.

Lemma reset_items (s : t) (l : list Planet.t) :
  map item_place
      (flat_map (fun planet =>
                   draw_planet (set_planets (map Planet.reset_position (planets s)) s)
                               planet
                   :: (if show_moons s
                       then map (draw_moon
                                   (set_planets
                                      (map Planet.reset_position (planets s)) s))
                                (Planet.moon_objects planet)
                       else []))
                (map Planet.reset_position l))
  = map item_place
        (flat_map (fun planet =>
                     draw_planet s planet
                     :: (if show_moons s
                         then map (draw_moon s) (Planet.moon_objects planet)
                         else []))
                  l).
Proof.
  induction l as [|p l IH]; [reflexivity|].
  cbn [map flat_map]. rewrite !map_app, IH. f_equal.
  cbn [map]. f_equal.
  destruct (show_moons s); [|reflexivity].
  cbn [Planet.reset_position Planet.moon_objects].
  rewrite !map_map. apply map_ext. intros m. reflexivity.
Qed.

End ResetScreen.

(** X3. [reset_position] does not recompute the position, so the frame
    that [reset_view] renders shows every body and satellite exactly
    where a plain redraw at zoom 1.0 and pan (700, 400) would show them
    without any reset of the angles: the reset moves nothing on the screen
    until the next tick. *)
Theorem reset_view_moves_nothing (self : SolarSystemExplorer.t) :
  let plain :=
    SolarSystemExplorer.draw_solar_system
      (SolarSystemExplorer.set_center 700 400
         (SolarSystemExplorer.set_zoom_factor 1.0 self)) in
  exists f_reset f_plain,
    SolarSystemExplorer.canvas (SolarSystemExplorer.reset_view self)
    = f_reset :: SolarSystemExplorer.canvas self
    /\ SolarSystemExplorer.canvas plain = f_plain :: SolarSystemExplorer.canvas self
    /\ SolarSystemExplorer.frame_zoom f_reset = SolarSystemExplorer.frame_zoom f_plain
    /\ map item_place (SolarSystemExplorer.frame_items f_reset)
       = map item_place (SolarSystemExplorer.frame_items f_plain)
    /\ map (fun p => (Planet.x p, Planet.y p, Planet.z p))
           (SolarSystemExplorer.planets (SolarSystemExplorer.reset_view self))
       = map (fun p => (Planet.x p, Planet.y p, Planet.z p))
             (SolarSystemExplorer.planets self).
Proof.
  cbv zeta. do 2 eexists.
  split; [reflexivity|]. split; [reflexivity|]. split; [reflexivity|].
  split.
  - cbn [SolarSystemExplorer.frame_items].
    set (s1 := SolarSystemExplorer.set_center 700 400
                 (SolarSystemExplorer.set_zoom_factor 1.0 self)).
    rewrite !map_app. f_equal. f_equal. f_equal.
    unfold SolarSystemExplorer.planets_sorted.
    cbn [SolarSystemExplorer.planets SolarSystemExplorer.set_planets
         SolarSystemExplorer.show_3d].
    rewrite sorted_map by (intros b; reflexivity).
    apply (reset_items s1).
  - cbn. rewrite map_map. apply map_ext. intros p. reflexivity.
Qed.

(** ** Picking, again *)

Lemma find_finds {A : Type} (f : A -> bool) (l : list A) (a : A) :
  In a l -> f a = true -> exists b, find f l = Some b.
Proof.
  intros Hin Ha. destruct (find f l) as [b|] eqn:E; [now exists b|].
  pose proof (find_none f l E a Hin) as Hn. congruence.
Qed.

Lemma hit_at_center (self : SolarSystemExplorer.t) (body : Planet.t) :
  0 <= Planet.radius body * SolarSystemExplorer.zoom_factor self ->
  Spec.hit self
    (Spec.screen_x (SolarSystemExplorer.center_x self)
                   (SolarSystemExplorer.zoom_factor self) body)
    (Spec.screen_y (SolarSystemExplorer.center_y self)
                   (SolarSystemExplorer.zoom_factor self)
                   (SolarSystemExplorer.depth_factor self)
                   (SolarSystemExplorer.show_3d self) body)
    body = true.
Proof.
  intros Hr. unfold Spec.hit. cbv zeta. apply Rleb_true.
  unfold Spec.screen_radius.
  match goal with
  | |- sqrt ?v <= _ => replace v with 0 by ring
  end.
  now rewrite sqrt_0.
Qed.

(** X4. The hit test is reflexive: a click exactly where [draw_planet]
    puts the center of a catalog body whose screen radius is not negative
    is never a miss; it selects a catalog body covering the point, the
    body itself when it is first in the catalog. *)
Theorem pick_at_drawn_center (self : SolarSystemExplorer.t) (body : Planet.t)
    (Hin : In body (SolarSystemExplorer.planets self))
    (Hr : 0 <= Planet.radius body * SolarSystemExplorer.zoom_factor self) :
  exists sx sy radius shadow found,
    SolarSystemExplorer.draw_planet self body
    = SolarSystemExplorer.PlanetItem body sx sy radius shadow
    /\ SolarSystemExplorer.get_planet_at_position self sx sy = Some found
    /\ In found (SolarSystemExplorer.planets self)
    /\ Spec.hit self sx sy found = true
    /\ (forall rest, SolarSystemExplorer.planets self = body :: rest ->
                     found = body).
Proof.
  pose proof (hit_at_center self body Hr) as Hhit.
  set (sx := Spec.screen_x _ _ body) in *.
  set (sy := Spec.screen_y _ _ _ _ body) in *.
  destruct (find_finds _ _ body Hin Hhit) as [found Hf].
  exists sx, sy, (Planet.radius body * SolarSystemExplorer.zoom_factor self),
    (SolarSystemExplorer.show_3d self && Rltb 0 (Planet.z body))%bool, found.
  split.
  - unfold SolarSystemExplorer.draw_planet, sx, sy, Spec.screen_x, Spec.screen_y.
    f_equal. destruct (SolarSystemExplorer.show_3d self); ring.
  - unfold SolarSystemExplorer.get_planet_at_position.
    rewrite planet_at_find, Hf.
    destruct (find_some _ _ Hf) as [Hfin Hfhit].
    repeat split; try assumption.
    intros rest Hp. rewrite Hp in Hf. cbn [find] in Hf.
    rewrite Hhit in Hf. congruence.
Qed.

(** X4 for Earth alone in the scene. *)
Lemma pick_at_drawn_center_witness :
  exists sx sy found,
    SolarSystemExplorer.get_planet_at_position
      (Samples.scene [Samples.earth]) sx sy = Some found.
Proof.
  destruct (pick_at_drawn_center (Samples.scene [Samples.earth]) Samples.earth)
    as (sx & sy & _ & _ & found & _ & Hf & _).
  - simpl. left. reflexivity.
  - simpl. lra.
  - exists sx, sy, found. exact Hf.
Defined.

(** X5. The hit test follows the catalog, not the paint order: of two
    bodies that both cover the clicked point in 3D mode, the first of the
    catalog is selected also when its [z] is smaller, that is when it is
    painted first and the other one is painted over it. *)
Theorem pick_ignores_depth (self : SolarSystemExplorer.t) (a b : Planet.t)
    (px py : R)
    (Hz : Planet.z a < Planet.z b) :
  let scene :=
    SolarSystemExplorer.set_show_3d true
      (SolarSystemExplorer.set_planets [a; b] self) in
  Spec.hit scene px py a = true ->
  Spec.hit scene px py b = true ->
  SolarSystemExplorer.planets_sorted scene = [a; b]
  /\ (exists f,
        SolarSystemExplorer.canvas (SolarSystemExplorer.draw_solar_system scene)
        = f :: SolarSystemExplorer.canvas scene
        /\ last (Spec.painted_planets f) a = b)
  /\ SolarSystemExplorer.get_planet_at_position scene px py = Some a.
Proof.
  cbv zeta. intros Ha Hb.
  assert (Hs : SolarSystemExplorer.planets_sorted
                 (SolarSystemExplorer.set_show_3d true
                    (SolarSystemExplorer.set_planets [a; b] self)) = [a; b]).
  { unfold SolarSystemExplorer.planets_sorted. cbn.
    now rewrite (proj2 (Rltb_false (Planet.z b) (Planet.z a))) by lra. }
  split; [exact Hs|]. split.
  - destruct (painted_planets_draw
                (SolarSystemExplorer.set_show_3d true
                   (SolarSystemExplorer.set_planets [a; b] self)))
      as (f & Hc & _ & Hp).
    exists f. split; [exact Hc|]. rewrite Hp, Hs. reflexivity.
  - unfold SolarSystemExplorer.get_planet_at_position.
    rewrite planet_at_find. cbn [SolarSystemExplorer.planets
      SolarSystemExplorer.set_show_3d SolarSystemExplorer.set_planets find].
    now rewrite Ha.
Qed.

(** X5 for the far and the near sample body, clicked where both are. *)
Lemma pick_ignores_depth_witness :
  SolarSystemExplorer.get_planet_at_position
    (SolarSystemExplorer.set_show_3d true
       (SolarSystemExplorer.set_planets [Samples.far_body; Samples.near_body]
          (Samples.scene [])))
    800 400
  = Some Samples.far_body.
Proof.
  refine (proj2 (proj2 (pick_ignores_depth (Samples.scene []) Samples.far_body
                          Samples.near_body 800 400 _ _ _))).
  - simpl. lra.
  - unfold Spec.hit, Spec.screen_x, Spec.screen_y, Spec.screen_radius. cbn.
    apply Rleb_true. apply sqrt_le_of_sqr; lra.
  - unfold Spec.hit, Spec.screen_x, Spec.screen_y, Spec.screen_radius. cbn.
    apply Rleb_true. apply sqrt_le_of_sqr; lra.
Defined.

(** ** Dragging *)

Section Dragging.

Import SolarSystemExplorer.

Lemma last_cons {A : Type} (l : list A) : forall a d : A,
  last (a :: l) d = last l a.
Proof.
  induction l as [|b l IH]; intros a d; [reflexivity|].
  change (last (a :: b :: l) d) with (last (b :: l) d).
  now rewrite !IH.
Qed.

Lemma drag_keeps (pts : list (R * R)) : forall s : t,
  dragging s = true ->
  let s' := run (map (fun p => CanvasDrag (fst p) (snd p)) pts) s in
  dragging s' = true
  /\ center_x s' - last_x s' = center_x s - last_x s
  /\ center_y s' - last_y s' = center_y s - last_y s
  /\ (last_x s', last_y s') = last pts (last_x s, last_y s)
  /\ zoom_factor s' = zoom_factor s
  /\ planets s' = planets s
  /\ List.length (canvas s') = (List.length (canvas s) + List.length pts)%nat.
Proof.
  induction pts as [|[x y] pts IH]; intros s Hd; cbv zeta.
  - cbn. repeat split; try assumption; lia.
  - cbn [map run fold_left fst snd handle].
    fold (run (map (fun p => CanvasDrag (fst p) (snd p)) pts)
              (on_canvas_drag x y s)).
    assert (Hs1 : on_canvas_drag x y s
                  = draw_solar_system
                      (set_drag x y true
                         (set_center (center_x s + (x - last_x s))
                                     (center_y s + (y - last_y s)) s))).
    { unfold on_canvas_drag. rewrite Hd. cbn [dragging set_center].
      rewrite Hd. reflexivity. }
    rewrite Hs1.
    set (s1 := draw_solar_system
                 (set_drag x y true
                    (set_center (center_x s + (x - last_x s))
                                (center_y s + (y - last_y s)) s))).
    assert (Hd1 : dragging s1 = true) by reflexivity.
    specialize (IH s1 Hd1). subst s1.
    cbv zeta in IH. destruct IH as (H1 & H2 & H3 & H4 & H5 & H6 & H7).
    cbn [center_x center_y last_x last_y zoom_factor planets canvas
         draw_solar_system set_canvas set_drag set_center] in H2, H3, H4, H5, H6, H7.
    repeat split; try assumption.
    + rewrite H2. ring.
    + rewrite H3. ring.
    + rewrite H4. symmetry. apply last_cons.
    + rewrite H7. cbn [List.length]. lia.
Qed.

Lemma drag_ignored (pts : list (R * R)) (s : t) :
  dragging s = false ->
  run (map (fun p => CanvasDrag (fst p) (snd p)) pts) s = s.
Proof.
  intros Hd. induction pts as [|[x y] pts IH]; [reflexivity|].
  cbn [map run fold_left fst snd handle].
  unfold on_canvas_drag. rewrite Hd. exact IH.
Qed.

End Dragging.

(** X6. A drag pans by the vector from the click to the last pointer
    position, whatever the path in between: after a click at [(x0, y0)]
    and motion events through [pts] to [(x1, y1)] the pan offset has moved
    by [(x1 - x0, y1 - y0)], every motion event has rendered one frame,
    and the zoom factor and the bodies are as before.  Motion events
    before the first click are ignored. *)
Theorem drag_pans_by_displacement (self : SolarSystemExplorer.t)
    (x0 y0 x1 y1 : R) (pts : list (R * R)) :
  let motion :=
    map (fun p => SolarSystemExplorer.CanvasDrag (fst p) (snd p)) in
  let s :=
    SolarSystemExplorer.run
      (SolarSystemExplorer.CanvasClick x0 y0 :: motion (pts ++ [(x1, y1)]))
      self in
  SolarSystemExplorer.center_x s = SolarSystemExplorer.center_x self + (x1 - x0)
  /\ SolarSystemExplorer.center_y s
     = SolarSystemExplorer.center_y self + (y1 - y0)
  /\ SolarSystemExplorer.zoom_factor s = SolarSystemExplorer.zoom_factor self
  /\ SolarSystemExplorer.planets s = SolarSystemExplorer.planets self
  /\ List.length (SolarSystemExplorer.canvas s)
     = S (List.length (SolarSystemExplorer.canvas self) + List.length pts)
  /\ forall now g,
       SolarSystemExplorer.run (motion (pts ++ [(x1, y1)]))
         (fst (SolarSystemExplorer.init now g))
       = fst (SolarSystemExplorer.init now g).
Proof.
  cbv zeta.
  cbn [SolarSystemExplorer.run fold_left SolarSystemExplorer.handle].
  fold (SolarSystemExplorer.run
          (map (fun p => SolarSystemExplorer.CanvasDrag (fst p) (snd p))
               (pts ++ [(x1, y1)]))
          (SolarSystemExplorer.on_canvas_click x0 y0 self)).
  destruct (drag_keeps (pts ++ [(x1, y1)])
              (SolarSystemExplorer.on_canvas_click x0 y0 self) eq_refl)
    as (_ & H2 & H3 & H4 & H5 & H6 & H7).
  rewrite last_last in H4. injection H4 as Hx Hy.
  cbn [SolarSystemExplorer.on_canvas_click SolarSystemExplorer.set_drag
       SolarSystemExplorer.center_x SolarSystemExplorer.center_y
       SolarSystemExplorer.last_x SolarSystemExplorer.last_y
       SolarSystemExplorer.zoom_factor SolarSystemExplorer.planets
       SolarSystemExplorer.canvas] in H2, H3, H5, H6, H7.
  rewrite Hx in H2. rewrite Hy in H3.
  repeat match goal with |- _ /\ _ => split end; try assumption.
  - lra.
  - lra.
  - rewrite H7, length_app. cbn [List.length]. lia.
  - intros now g. apply drag_ignored. destruct_init. reflexivity.
Qed.

(** ** Pausing *)

Section Pausing.

Import SolarSystemExplorer.

Lemma handle_paused (e : event) (s : t) :
  is_running s = false -> keeps_time e = true ->
  is_running (handle e s) = false
  /\ planets (handle e s) = planets s
  /\ current_date (handle e s) = current_date s.
Proof.
  intros Hr Hk.
  destruct e; try discriminate Hk; cbn [handle];
    try (repeat split; (exact Hr || reflexivity)).
  - unfold on_mouse_wheel. destruct (0 <? delta)%Z;
      repeat split; (exact Hr || reflexivity).
  - unfold on_canvas_drag. destruct (dragging s);
      repeat split; (exact Hr || reflexivity).
  - unfold animate_iteration. destruct (is_alive tid s);
      [rewrite Hr|]; repeat split; (exact Hr || reflexivity).
  - unfold update_gui. destruct (pending s);
      repeat split; (exact Hr || reflexivity).
Qed.

Lemma loop_ends_when_paused (tid : nat) (s : t) :
  is_running s = false -> is_alive tid (animate_iteration tid s) = false.
Proof.
  intros Hr. unfold animate_iteration.
  destruct (is_alive tid s) eqn:Ha; [|exact Ha].
  rewrite Hr. unfold is_alive. cbn [alive set_alive].
  induction (alive s) as [|t0 l IH]; [reflexivity|].
  cbn [filter]. destruct (Nat.eqb_spec t0 tid) as [->|Hne]; cbn [negb].
  - exact IH.
  - cbn [existsb]. rewrite IH, orb_false_r.
    apply Nat.eqb_neq. congruence.
Qed.

End Pausing.

(** X7. Pausing freezes the simulation: from a state whose flag
    [is_running] is off, no sequence of events without a start or a reset
    (zooming, panning, toggles, the time-scale slider, pending redraws,
    iterations of a loop that is still alive) moves a body or the
    simulated date, and a loop that is still alive ends at its next
    iteration. *)
Theorem paused_stays_still (s : SolarSystemExplorer.t)
    (events : list SolarSystemExplorer.event)
    (Hr : SolarSystemExplorer.is_running s = false)
    (Hk : forallb keeps_time events = true) :
  let s' := SolarSystemExplorer.run events s in
  SolarSystemExplorer.planets s' = SolarSystemExplorer.planets s
  /\ SolarSystemExplorer.current_date s' = SolarSystemExplorer.current_date s
  /\ SolarSystemExplorer.is_running s' = false
  /\ forall tid,
       SolarSystemExplorer.is_alive tid
         (SolarSystemExplorer.animate_iteration tid s') = false.
Proof.
  cbv zeta.
  assert (H : SolarSystemExplorer.is_running (SolarSystemExplorer.run events s)
              = false
              /\ SolarSystemExplorer.planets (SolarSystemExplorer.run events s)
                 = SolarSystemExplorer.planets s
              /\ SolarSystemExplorer.current_date
                   (SolarSystemExplorer.run events s)
                 = SolarSystemExplorer.current_date s).
  { revert s Hr Hk. induction events as [|e events IH]; intros s Hr Hk.
    - repeat split. exact Hr.
    - cbn [forallb] in Hk. apply andb_prop in Hk as [He Hk].
      destruct (handle_paused e s Hr He) as (H1 & H2 & H3).
      cbn [SolarSystemExplorer.run fold_left].
      fold (SolarSystemExplorer.run events (SolarSystemExplorer.handle e s)).
      destruct (IH _ H1 Hk) as (I1 & I2 & I3).
      rewrite I2, I3, H2, H3. repeat split. exact I1. }
  destruct H as (H1 & H2 & H3).
  repeat split; try assumption.
  intros tid. now apply loop_ends_when_paused.
Qed.

(** X7 for a session that starts, pauses, and then zooms while the loop
    makes one more iteration. *)
Lemma paused_stays_still_witness :
  let s :=
    SolarSystemExplorer.run
      [SolarSystemExplorer.StartAnimation; SolarSystemExplorer.PauseAnimation]
      (Samples.scene [Samples.earth]) in
  SolarSystemExplorer.planets
    (SolarSystemExplorer.run
       [SolarSystemExplorer.ZoomIn; SolarSystemExplorer.AnimateIteration 0;
        SolarSystemExplorer.UpdateGui] s)
  = [Samples.earth].
Proof.
  refine (proj1 (paused_stays_still _ _ _ _)); reflexivity.
Defined.

(** ** Shading, again *)

Section ShadingBounds.

Lemma int_scaled_channel (c : Z) (i : R) :
  (0 <= c)%Z -> 0 <= i <= 1 ->
  (0 <= builtins.int (IZR c * i) <= c)%Z.
Proof.
  intros Hc Hi.
  assert (Hc' : 0 <= IZR c) by (apply IZR_le in Hc; exact Hc).
  assert (Hv : 0 <= IZR c * i) by (apply Rmult_le_pos; lra).
  assert (Hle : IZR c * i <= IZR c) by nra.
  destruct (int_floor (IZR c * i) Hv) as [Hlo Hhi].
  split.
  - apply Z.lt_succ_r. apply lt_IZR. rewrite succ_IZR. lra.
  - apply le_IZR. lra.
Qed.

Lemma corner_distance (w h : nat) :
  (1 <= w)%nat -> (1 <= h)%nat -> 1 < Spec.radial_distance w h 0 0.
Proof.
  intros Hw Hh. unfold Spec.radial_distance. cbv zeta. simpl INR.
  assert (Hw' : 0 < INR w) by (apply lt_0_INR; lia).
  assert (Hh' : 0 < INR h) by (apply lt_0_INR; lia).
  replace ((0 - INR w / 2) / (INR w / 2)) with (-1) by (field; lra).
  replace ((0 - INR h / 2) / (INR h / 2)) with (-1) by (field; lra).
  apply sqrt_gt_of_sqr; lra.
Qed.

End ShadingBounds.

(** X8. Shading never brightens and keeps pixels valid: at every pixel of
    an image whose color channels are not negative, each channel of the
    texture lies between 0 and the source channel, and its alpha is the
    source alpha or 0. *)
Theorem texture_never_brighter (img : Image.t) (x y : nat)
    (Hx : (x < Image.width img)%nat) (Hy : (y < Image.height img)%nat)
    (Hr : (0 <= Image.red (Image.pixels img x y))%Z)
    (Hg : (0 <= Image.green (Image.pixels img x y))%Z)
    (Hb : (0 <= Image.blue (Image.pixels img x y))%Z) :
  exists out,
    SolarSystemExplorer.create_texture_map img = Some out
    /\ let p := Image.pixels img x y in
       let q := Image.pixels out x y in
       (0 <= Image.red q <= Image.red p)%Z
       /\ (0 <= Image.green q <= Image.green p)%Z
       /\ (0 <= Image.blue q <= Image.blue p)%Z
       /\ (Image.alpha q = Image.alpha p \/ Image.alpha q = 0%Z).
Proof.
  destruct (create_texture_map_at img) as (out & Hout & _ & _ & Hpx).
  exists out. split; [exact Hout|]. cbv zeta. rewrite Hpx.
  apply Nat.ltb_lt in Hx, Hy. rewrite Hx, Hy. cbn [andb].
  set (p := Image.pixels img x y) in *.
  set (d := Spec.radial_distance (Image.width img) (Image.height img) x y).
  destruct (Rle_lt_dec d 1) as [Hd|Hd].
  - rewrite shade_inside by exact Hd. cbv zeta. fold d.
    pose proof (intensity_bounds d) as Hi.
    cbn [Image.red Image.green Image.blue Image.alpha].
    repeat split; try (apply int_scaled_channel; [assumption | lra]).
    now left.
  - rewrite shade_outside by exact Hd.
    cbn [Image.red Image.green Image.blue Image.alpha].
    repeat split; try assumption; lia.
Qed.

(** X8 at the pixel (1, 0) of the 2 x 2 sample image. *)
Lemma texture_never_brighter_witness :
  exists out,
    SolarSystemExplorer.create_texture_map Samples.image = Some out
    /\ (0 <= Image.red (Image.pixels out 1 0) <= 200)%Z.
Proof.
  destruct (texture_never_brighter Samples.image 1 0) as (out & Hout & Hq & _).
  - simpl. lia.
  - simpl. lia.
  - simpl. lia.
  - simpl. lia.
  - simpl. lia.
  - exists out. split; [exact Hout | exact Hq].
Defined.

(** X9. The disc is cut around the point [(width / 2, height / 2)], which
    is half a pixel right of and below the middle of the image: the top
    left pixel of every texture is fully transparent, and so the texture
    of a 1 x 1 image shows nothing at all. *)
Theorem texture_corner_transparent (img : Image.t)
    (Hw : (1 <= Image.width img)%nat) (Hh : (1 <= Image.height img)%nat) :
  exists out,
    SolarSystemExplorer.create_texture_map img = Some out
    /\ Image.pixels out 0 0 = Image.rgba 0 0 0 0
    /\ (Image.width img = 1%nat -> Image.height img = 1%nat ->
        forall x y, (x < Image.width out)%nat -> (y < Image.height out)%nat ->
                    Image.pixels out x y = Image.rgba 0 0 0 0).
Proof.
  destruct (create_texture_map_at img) as (out & Hout & Hwo & Hho & Hpx).
  exists out. split; [exact Hout|].
  assert (H00 : Image.pixels out 0 0 = Image.rgba 0 0 0 0).
  { rewrite Hpx.
    assert (E1 : Nat.ltb 0 (Image.width img) = true) by (apply Nat.ltb_lt; lia).
    assert (E2 : Nat.ltb 0 (Image.height img) = true) by (apply Nat.ltb_lt; lia).
    rewrite E1, E2. cbn [andb].
    apply shade_outside, corner_distance; assumption. }
  split; [exact H00|].
  intros H1w H1h x y Hx Hy.
  rewrite Hwo, H1w in Hx. rewrite Hho, H1h in Hy.
  assert (x = 0%nat) by lia. assert (y = 0%nat) by lia. subst. exact H00.
Qed.

(** X9 for the 2 x 2 sample image. *)
Lemma texture_corner_transparent_witness :
  exists out,
    SolarSystemExplorer.create_texture_map Samples.image = Some out
    /\ Image.pixels out 0 0 = Image.rgba 0 0 0 0.
Proof.
  destruct (texture_corner_transparent Samples.image) as (out & Hout & Hq & _).
  - simpl. lia.
  - simpl. lia.
  - exists out. split; [exact Hout | exact Hq].
Defined.

(** ** Colors *)

Section Colors.

Import SolarSystemExplorer.

Lemma hex_digit_range (c : ascii) (d : Z) :
  python.hex_digit c = Some d -> (0 <= d <= 15)%Z.
Proof.
  unfold python.hex_digit.
  repeat match goal with
         | |- context [(?a <=? ?b)%nat] => destruct (Nat.leb_spec a b)
         end; cbn [andb]; intros Heq; inversion Heq; lia.
Qed.

Lemma hex_digit_not_hash (c : ascii) (d : Z) :
  python.hex_digit c = Some d -> Ascii.eqb c "#" = false.
Proof.
  intros H. destruct (Ascii.eqb_spec c "#") as [->|]; [|reflexivity].
  vm_compute in H. discriminate H.
Qed.

(** The two characters of ['%02x' % v] for a byte [v] are its two
    hexadecimal digits; checked on the 256 bytes. *)
Lemma format_02x_byte (v : Z) :
  (0 <= v <= 255)%Z ->
  exists c1 c2,
    python.format_02x v = String c1 (String c2 EmptyString)
    /\ python.hex_digit c1 = Some (v / 16)%Z
    /\ python.hex_digit c2 = Some (v mod 16)%Z.
Proof.
  intros Hv.
  assert (Hall :
    forallb (fun n =>
               match python.format_02x (Z.of_nat n) with
               | String c1 (String c2 EmptyString) =>
                   match python.hex_digit c1, python.hex_digit c2 with
                   | Some d1, Some d2 =>
                       (Z.eqb d1 (Z.of_nat n / 16)
                        && Z.eqb d2 (Z.of_nat n mod 16))%bool
                   | _, _ => false
                   end
               | _ => false
               end)
            (seq 0 256) = true) by (vm_compute; reflexivity).
  rewrite forallb_forall in Hall.
  specialize (Hall (Z.to_nat v)).
  rewrite Z2Nat.id in Hall by lia.
  assert (Hin : In (Z.to_nat v) (seq 0 256)) by (apply in_seq; lia).
  specialize (Hall Hin).
  destruct (python.format_02x v) as [|c1 [|c2 [|c3 rest]]]; try discriminate.
  destruct (python.hex_digit c1) as [d1|] eqn:H1; [|discriminate].
  destruct (python.hex_digit c2) as [d2|] eqn:H2; [|discriminate].
  apply andb_prop in Hall as [E1 E2].
  apply Z.eqb_eq in E1, E2.
  exists c1, c2. repeat split; congruence.
Qed.

Lemma int16_two (c1 c2 : ascii) (d1 d2 : Z) :
  python.hex_digit c1 = Some d1 -> python.hex_digit c2 = Some d2 ->
  python.int16 (String c1 (String c2 EmptyString)) = Some (16 * d1 + d2)%Z.
Proof.
  intros H1 H2. cbn [python.int16 python.int16_from].
  rewrite H1, H2. f_equal.
Qed.

Lemma hex_round_trip (r g b : Z) :
  (0 <= r <= 255)%Z -> (0 <= g <= 255)%Z -> (0 <= b <= 255)%Z ->
  hex_to_rgb (rgb_to_hex (r, g, b)) = Some (r, g, b).
Proof.
  intros Hr Hg Hb.
  destruct (format_02x_byte r Hr) as (r1 & r2 & Er & Hr1 & Hr2).
  destruct (format_02x_byte g Hg) as (g1 & g2 & Eg & Hg1 & Hg2).
  destruct (format_02x_byte b Hb) as (b1 & b2 & Eb & Hb1 & Hb2).
  unfold hex_to_rgb, rgb_to_hex. rewrite Er, Eg, Eb.
  cbn [append python.lstrip]. rewrite Ascii.eqb_refl.
  rewrite (hex_digit_not_hash r1 _ Hr1).
  unfold python.slice. cbn [Nat.sub substring].
  rewrite (int16_two _ _ _ _ Hr1 Hr2), (int16_two _ _ _ _ Hg1 Hg2),
    (int16_two _ _ _ _ Hb1 Hb2).
  rewrite <- !Z.div_mod by lia. reflexivity.
Qed.

Lemma substring_two (s : string) : forall i : nat,
  substring i 2 s = EmptyString
  \/ (exists a, substring i 2 s = String a EmptyString)
  \/ (exists a b, substring i 2 s = String a (String b EmptyString)).
Proof.
  induction s as [|c s IH]; intros [|i].
  - left. reflexivity.
  - left. reflexivity.
  - destruct s as [|c' s'].
    + right. left. exists c. reflexivity.
    + right. right. exists c, c'. cbn. destruct s'; reflexivity.
  - cbn [substring]. apply IH.
Qed.

(** A slice of two characters that [int] reads is a byte. *)
Lemma int16_slice_byte (s : string) (i : nat) (v : Z) :
  python.int16 (python.slice i (i + 2) s) = Some v -> (0 <= v <= 255)%Z.
Proof.
  unfold python.slice. replace (i + 2 - i)%nat with 2%nat by lia.
  destruct (substring_two s i) as [E|[[a E]|[a [b E]]]]; rewrite E.
  - discriminate.
  - cbn [python.int16 python.int16_from].
    destruct (python.hex_digit a) as [d|] eqn:Hd; [|discriminate].
    intros Hv. assert (E' : (16 * 0 + d)%Z = v) by congruence.
    apply hex_digit_range in Hd. lia.
  - destruct (python.hex_digit a) as [d|] eqn:Hd;
      [|cbn [python.int16 python.int16_from]; rewrite Hd; discriminate].
    destruct (python.hex_digit b) as [e|] eqn:He;
      [|cbn [python.int16 python.int16_from]; rewrite Hd, He; discriminate].
    rewrite (int16_two a b d e Hd He).
    intros Hv. assert (E' : (16 * d + e)%Z = v) by congruence.
    apply hex_digit_range in Hd, He. lia.
Qed.

Lemma hex_to_rgb_bytes (color : string) (r g b : Z) :
  hex_to_rgb color = Some (r, g, b) ->
  (0 <= r <= 255)%Z /\ (0 <= g <= 255)%Z /\ (0 <= b <= 255)%Z.
Proof.
  unfold hex_to_rgb. cbv zeta.
  destruct (python.int16 (python.slice 0 2 _)) as [r'|] eqn:Er; [|discriminate].
  destruct (python.int16 (python.slice 2 4 _)) as [g'|] eqn:Eg; [|discriminate].
  destruct (python.int16 (python.slice 4 6 _)) as [b'|] eqn:Eb; [|discriminate].
  intros [= <- <- <-].
  apply (int16_slice_byte _ 0) in Er. apply (int16_slice_byte _ 2) in Eg.
  apply (int16_slice_byte _ 4) in Eb. auto.
Qed.

(** A color with fewer than five characters after the leading [#]: its
    third slice is empty, and [int] raises on it. *)
Lemma hex_to_rgb_short (short : string) :
  (String.length (python.lstrip "#" short) <= 4)%nat ->
  hex_to_rgb short = None.
Proof.
  intros Hlen. unfold hex_to_rgb. cbv zeta.
  assert (E : python.slice 4 6 (python.lstrip "#" short) = EmptyString).
  { unfold python.slice. cbn [Nat.sub].
    destruct (python.lstrip "#" short) as [|c1 [|c2 [|c3 [|c4 [|c5 rest]]]]];
      try reflexivity.
    cbn [String.length] in Hlen. lia. }
  rewrite E. cbn [python.int16].
  destruct (python.int16 _); [|reflexivity].
  destruct (python.int16 _); reflexivity.
Qed.

Lemma mixed_byte (c1 c2 : Z) (ratio : R) :
  (0 <= c1 <= 255)%Z -> (0 <= c2 <= 255)%Z -> 0 <= ratio <= 1 ->
  (0 <= builtins.int (IZR c1 * ratio + IZR c2 * (1 - ratio)) <= 255)%Z.
Proof.
  intros [H1 H1'] [H2 H2'] Hr.
  apply IZR_le in H1, H1', H2, H2'.
  assert (Hv : 0 <= IZR c1 * ratio + IZR c2 * (1 - ratio)) by nra.
  assert (Hu : IZR c1 * ratio + IZR c2 * (1 - ratio) <= 255) by nra.
  destruct (int_floor _ Hv) as [Hlo Hhi].
  split.
  - apply Z.lt_succ_r. apply lt_IZR. rewrite succ_IZR. lra.
  - apply le_IZR. lra.
Qed.

Lemma mix_colors_bytes (color1 color2 : string) (ratio : R)
    (rgb1 rgb2 : Z * Z * Z)
    (H1 : SolarSystemExplorer.hex_to_rgb color1 = Some rgb1)
    (H2 : SolarSystemExplorer.hex_to_rgb color2 = Some rgb2)
    (Hratio : 0 <= ratio <= 1) :
  exists r g b,
    SolarSystemExplorer.mix_colors color1 color2 ratio
    = Some (SolarSystemExplorer.rgb_to_hex (r, g, b))
    /\ (0 <= r <= 255)%Z /\ (0 <= g <= 255)%Z /\ (0 <= b <= 255)%Z
    /\ SolarSystemExplorer.hex_to_rgb (SolarSystemExplorer.rgb_to_hex (r, g, b))
       = Some (r, g, b).
Proof.
  destruct rgb1 as [[r1 g1] b1]. destruct rgb2 as [[r2 g2] b2].
  destruct (hex_to_rgb_bytes _ _ _ _ H1) as (Hr1 & Hg1 & Hb1).
  destruct (hex_to_rgb_bytes _ _ _ _ H2) as (Hr2 & Hg2 & Hb2).
  pose proof (mixed_byte r1 r2 ratio Hr1 Hr2 Hratio) as Hr.
  pose proof (mixed_byte g1 g2 ratio Hg1 Hg2 Hratio) as Hg.
  pose proof (mixed_byte b1 b2 ratio Hb1 Hb2 Hratio) as Hb.
  do 3 eexists. unfold SolarSystemExplorer.mix_colors. rewrite H1, H2.
  cbv zeta. split; [reflexivity|].
  repeat split; try apply Hr; try apply Hg; try apply Hb.
  now apply hex_round_trip.
Qed.

End Colors.

(** X10. Writing a color and reading it back is the identity on bytes:
    [hex_to_rgb(rgb_to_hex((r, g, b))) = (r, g, b)] for channels from 0 to
    255, and the text written has seven characters. *)
Theorem rgb_hex_round_trip (r g b : Z)
    (Hr : (0 <= r <= 255)%Z) (Hg : (0 <= g <= 255)%Z) (Hb : (0 <= b <= 255)%Z) :
  SolarSystemExplorer.hex_to_rgb (SolarSystemExplorer.rgb_to_hex (r, g, b))
  = Some (r, g, b)
  /\ String.length (SolarSystemExplorer.rgb_to_hex (r, g, b)) = 7%nat.
Proof.
  split; [now apply hex_round_trip|].
  destruct (format_02x_byte r Hr) as (r1 & r2 & Er & _).
  destruct (format_02x_byte g Hg) as (g1 & g2 & Eg & _).
  destruct (format_02x_byte b Hb) as (b1 & b2 & Eb & _).
  unfold SolarSystemExplorer.rgb_to_hex. rewrite Er, Eg, Eb. reflexivity.
Qed.

(** X10 for the color (255, 0, 51). *)
Lemma rgb_hex_round_trip_witness :
  SolarSystemExplorer.hex_to_rgb (SolarSystemExplorer.rgb_to_hex (255, 0, 51)%Z)
  = Some (255, 0, 51)%Z.
Proof.
  refine (proj1 (rgb_hex_round_trip 255 0 51 _ _ _)); lia.
Defined.

(** X11. Mixing two colors that [hex_to_rgb] can read, with a ratio from
    0 to 1, never raises and gives a color of three bytes that
    [hex_to_rgb] reads back as it was written. *)
Theorem mix_colors_valid (color1 color2 : string) (ratio : R)
    (rgb1 rgb2 : Z * Z * Z)
    (H1 : SolarSystemExplorer.hex_to_rgb color1 = Some rgb1)
    (H2 : SolarSystemExplorer.hex_to_rgb color2 = Some rgb2)
    (Hratio : 0 <= ratio <= 1) :
  exists r g b,
    SolarSystemExplorer.mix_colors color1 color2 ratio
    = Some (SolarSystemExplorer.rgb_to_hex (r, g, b))
    /\ (0 <= r <= 255)%Z /\ (0 <= g <= 255)%Z /\ (0 <= b <= 255)%Z
    /\ SolarSystemExplorer.hex_to_rgb (SolarSystemExplorer.rgb_to_hex (r, g, b))
       = Some (r, g, b).
Proof.
  exact (mix_colors_bytes color1 color2 ratio rgb1 rgb2 H1 H2 Hratio).
Qed.

(** X11 for white and the night blue of the starfield, half and half. *)
Lemma mix_colors_valid_witness :
  exists r g b,
    SolarSystemExplorer.mix_colors "#FFFFFF" "#000033" (1 / 2)
    = Some (SolarSystemExplorer.rgb_to_hex (r, g, b)).
Proof.
  destruct (mix_colors_valid "#FFFFFF" "#000033" (1 / 2)
              (255, 255, 255)%Z (0, 0, 51)%Z)
    as (r & g & b & Hm & _).
  - reflexivity.
  - reflexivity.
  - lra.
  - exists r, g, b. exact Hm.
Defined.

(** X12. The ends of the scale and the failure: ratio 1 gives the first
    color and ratio 0 the second, both rewritten in lower case; a color
    with fewer than five characters after its leading [#] makes
    [mix_colors] raise, in either position. *)
Theorem mix_colors_ends (color1 color2 : string) (rgb1 rgb2 : Z * Z * Z)
    (H1 : SolarSystemExplorer.hex_to_rgb color1 = Some rgb1)
    (H2 : SolarSystemExplorer.hex_to_rgb color2 = Some rgb2) :
  SolarSystemExplorer.mix_colors color1 color2 1
  = Some (SolarSystemExplorer.rgb_to_hex rgb1)
  /\ SolarSystemExplorer.mix_colors color1 color2 0
     = Some (SolarSystemExplorer.rgb_to_hex rgb2)
  /\ forall (short : string) (ratio : R),
       (String.length (python.lstrip "#" short) <= 4)%nat ->
       SolarSystemExplorer.mix_colors short color2 ratio = None
       /\ SolarSystemExplorer.mix_colors color1 short ratio = None.
Proof.
  destruct rgb1 as [[r1 g1] b1]. destruct rgb2 as [[r2 g2] b2].
  unfold SolarSystemExplorer.mix_colors. rewrite H1, H2. cbv zeta.
  split; [|split].
  - repeat match goal with
           | |- context [builtins.int (IZR ?a * 1 + IZR ?b * (1 - 1))] =>
               replace (IZR a * 1 + IZR b * (1 - 1)) with (IZR a) by ring
           end.
    now rewrite !int_IZR.
  - repeat match goal with
           | |- context [builtins.int (IZR ?a * 0 + IZR ?b * (1 - 0))] =>
               replace (IZR a * 0 + IZR b * (1 - 0)) with (IZR b) by ring
           end.
    now rewrite !int_IZR.
  - intros short ratio Hlen.
    assert (Hs : SolarSystemExplorer.hex_to_rgb short = None)
      by now apply hex_to_rgb_short.
    rewrite Hs. split; reflexivity.
Qed.

(** X12 for the gold and the orange of the sun. *)
Lemma mix_colors_ends_witness :
  SolarSystemExplorer.mix_colors "#FFD700" "#FFA500" 1 = Some "#ffd700"%string.
Proof.
  refine (proj1 (mix_colors_ends "#FFD700" "#FFA500"
                   (255, 215, 0)%Z (255, 165, 0)%Z _ _)); reflexivity.
Defined.

(** ** Fallback bodies, rings and orbits *)

Section Shapes.

Import SolarSystemExplorer.

Lemma range_down (n : Z) :
  python.range n 0 (-1)
  = map (fun k => (n - Z.of_nat k)%Z) (seq 0 (Z.to_nat n)).
Proof.
  unfold python.range. cbn [Z.ltb Z.compare].
  destruct (Z.ltb_spec 0 n) as [Hn|Hn].
  - replace ((n - 0 - 1) / - (-1) + 1)%Z with n
      by (change (- (-1))%Z with 1%Z; rewrite Z.div_1_r; lia).
    apply map_ext. intros k. lia.
  - replace (Z.to_nat n) with O by lia. reflexivity.
Qed.

Lemma range_down_bounds (n i : Z) :
  In i (python.range n 0 (-1)) -> (1 <= i <= n)%Z.
Proof.
  rewrite range_down. intros H. apply in_map_iff in H as (k & <- & Hk).
  apply in_seq in Hk. lia.
Qed.

Lemma collect_all {A B : Type} (f : A -> option B) (P : A -> B -> Prop)
    (l : list A) :
  (forall a, In a l -> exists b, f a = Some b /\ P a b) ->
  exists bs, collect f l = Some bs /\ Forall2 P l bs.
Proof.
  induction l as [|a l IH]; intros H.
  - exists []. split; [reflexivity | constructor].
  - destruct (H a (or_introl eq_refl)) as (b & Hb & Pb).
    destruct IH as (bs & Hbs & Pbs); [intros a' Ha'; apply H; now right|].
    exists (b :: bs). cbn [collect]. rewrite Hb, Hbs.
    split; [reflexivity | now constructor].
Qed.

(** The shading intensity of the ring of radius [i] of a fallback body. *)
Lemma circle_intensity (radius : R) (i : Z) :
  1 <= radius -> (1 <= i <= builtins.int radius)%Z ->
  0.4 <= 0.4 + 0.6 * (radius - IZR i) / radius < 1.
Proof.
  intros Hr [Hi1 Hi2].
  destruct (int_floor radius) as [Hlo _]; [lra|].
  apply IZR_le in Hi1, Hi2.
  assert (Hq : 0 <= 0.6 * (radius - IZR i) / radius < 0.6).
  { split.
    - apply Rmult_le_pos; [lra|]. apply Rlt_le, Rinv_0_lt_compat. lra.
    - apply (Rmult_lt_reg_r radius); [lra|].
      unfold Rdiv. rewrite Rmult_assoc, Rinv_l by lra. lra. }
  lra.
Qed.

Lemma planet_circle_drawn (self : SolarSystemExplorer.t)
    (planet : Planet.t) (x y radius : R) (rgb : Z * Z * Z)
    (H3d : SolarSystemExplorer.show_3d self = true)
    (Hcolor : SolarSystemExplorer.hex_to_rgb (Planet.color planet) = Some rgb) :
  (radius < 1 ->
   SolarSystemExplorer.draw_planet_circle self planet x y radius = Some [])
  /\ (1 <= radius ->
      exists ovals,
        SolarSystemExplorer.draw_planet_circle self planet x y radius
        = Some ovals
        /\ List.length ovals = Z.to_nat (builtins.int radius)
        /\ Forall2
             (fun k o =>
                let i := IZR (builtins.int radius - Z.of_nat k) in
                SolarSystemExplorer.oval_x0 o = x - i
                /\ SolarSystemExplorer.oval_y0 o = y - i
                /\ SolarSystemExplorer.oval_x1 o = x + i
                /\ SolarSystemExplorer.oval_y1 o = y + i
                /\ SolarSystemExplorer.oval_outline o
                   = SolarSystemExplorer.oval_fill o
                /\ exists shade,
                     SolarSystemExplorer.hex_to_rgb
                       (SolarSystemExplorer.oval_fill o) = Some shade)
             (seq 0 (Z.to_nat (builtins.int radius))) ovals).
Proof.
  unfold SolarSystemExplorer.draw_planet_circle. rewrite H3d, range_down.
  split.
  - intros Hr.
    assert (Hn : (builtins.int radius <= 0)%Z).
    { unfold builtins.int. destruct (Rle_dec 0 radius) as [H0|H0].
      - rewrite <- (Int_part_spec radius 0); [lia | lra].
      - assert (Hp : 0 <= - radius) by lra.
        pose proof (int_floor _ Hp) as [Hlo _].
        unfold builtins.int in Hlo.
        destruct (Rle_dec 0 (- radius)); [|contradiction].
        assert (0 <= IZR (Int_part (- radius))).
        { pose proof (base_Int_part (- radius)). 
          assert (Hz : (0 <= Int_part (- radius))%Z).
          { apply Z.lt_succ_r, lt_IZR. rewrite succ_IZR. lra. }
          now apply IZR_le in Hz. }
        assert (Hz : (0 <= Int_part (- radius))%Z) by (apply le_IZR; lra).
        lia. }
    replace (Z.to_nat (builtins.int radius)) with O by lia. reflexivity.
  - intros Hr.
    set (n := builtins.int radius).
    destruct (collect_all
                (fun i =>
                   match SolarSystemExplorer.mix_colors (Planet.color planet)
                           "#000000" (0.4 + 0.6 * (radius - IZR i) / radius) with
                   | Some shaded_color =>
                       Some (SolarSystemExplorer.mkOval
                               (x - IZR i) (y - IZR i) (x + IZR i) (y + IZR i)
                               shaded_color shaded_color)
                   | None => None
                   end)
                (fun i o =>
                   SolarSystemExplorer.oval_x0 o = x - IZR i
                   /\ SolarSystemExplorer.oval_y0 o = y - IZR i
                   /\ SolarSystemExplorer.oval_x1 o = x + IZR i
                   /\ SolarSystemExplorer.oval_y1 o = y + IZR i
                   /\ SolarSystemExplorer.oval_outline o
                      = SolarSystemExplorer.oval_fill o
                   /\ exists shade,
                        SolarSystemExplorer.hex_to_rgb
                          (SolarSystemExplorer.oval_fill o) = Some shade)
                (map (fun k => (n - Z.of_nat k)%Z) (seq 0 (Z.to_nat n))))
      as (ovals & Hc & Hall).
    { intros i Hi. rewrite <- range_down in Hi. apply range_down_bounds in Hi.
      destruct (circle_intensity radius i Hr Hi) as [Hlo Hhi].
      destruct (mix_colors_bytes (Planet.color planet) "#000000"
                  (0.4 + 0.6 * (radius - IZR i) / radius) rgb (0, 0, 0)%Z
                  Hcolor eq_refl) as (r & g & b & Hm & _ & _ & _ & Hback);
        [lra|].
      rewrite Hm. eexists. split; [reflexivity|].
      cbn. repeat split. now exists (r, g, b). }
    exists ovals. split; [exact Hc|].
    pose proof (Forall2_length Hall) as Hlen.
    rewrite length_map, length_seq in Hlen.
    split; [now symmetry|].
    clear Hc Hlen. revert ovals Hall.
    induction (seq 0 (Z.to_nat n)) as [|k ks IH]; intros ovals Hall.
    + inversion Hall. constructor.
    + cbn [map] in Hall. inversion Hall as [|? o ? os Ho Hos]; subst.
      constructor; [exact Ho | now apply IH].
Qed.

Lemma rings_drawn (self : SolarSystemExplorer.t) (planet : Planet.t)
    (x y radius : R) (rgb : Z * Z * Z)
    (Hcolor : SolarSystemExplorer.hex_to_rgb (Planet.color planet) = Some rgb) :
  let w k := radius * 1.3 + (radius * 1.8 - radius * 1.3) * (IZR k + 1) / 3 in
  let h k := if SolarSystemExplorer.show_3d self then w k * 0.2 else w k in
  (exists c0 c1 c2,
     SolarSystemExplorer.draw_rings self planet x y radius
     = Some [SolarSystemExplorer.mkOval (x - w 0%Z) (y - h 0%Z)
                                         (x + w 0%Z) (y + h 0%Z) "" c0;
             SolarSystemExplorer.mkOval (x - w 1%Z) (y - h 1%Z)
                                         (x + w 1%Z) (y + h 1%Z) "" c1;
             SolarSystemExplorer.mkOval (x - w 2%Z) (y - h 2%Z)
                                         (x + w 2%Z) (y + h 2%Z) "" c2])
  /\ w 2%Z = radius * 1.8
  /\ (0 < radius ->
      radius < radius * 1.3 < w 0%Z /\ w 0%Z < w 1%Z /\ w 1%Z < w 2%Z)
  /\ forall other : Planet.t,
       (String.length (python.lstrip "#" (Planet.color other)) <= 4)%nat ->
       SolarSystemExplorer.draw_rings self other x y radius = None.
Proof.
  cbv zeta.
  destruct (mix_colors_bytes "#CCCCCC" (Planet.color planet) 0.8
              (204, 204, 204)%Z rgb eq_refl Hcolor)
    as (r0 & g0 & b0 & E0 & _); [lra|].
  destruct (mix_colors_bytes "#CCCCCC" (Planet.color planet) 0.6
              (204, 204, 204)%Z rgb eq_refl Hcolor)
    as (r1 & g1 & b1 & E1 & _); [lra|].
  destruct (mix_colors_bytes "#CCCCCC" (Planet.color planet) 0.4
              (204, 204, 204)%Z rgb eq_refl Hcolor)
    as (r2 & g2 & b2 & E2 & _); [lra|].
  split; [|split; [|split]].
  - do 3 eexists. unfold SolarSystemExplorer.draw_rings.
    cbn [SolarSystemExplorer.collect]. rewrite E0, E1, E2.
    destruct (SolarSystemExplorer.show_3d self); reflexivity.
  - lra.
  - intros Hr. lra.
  - intros other Hshort. apply hex_to_rgb_short in Hshort as Hnone.
    unfold SolarSystemExplorer.draw_rings.
    cbn [SolarSystemExplorer.collect].
    unfold SolarSystemExplorer.mix_colors at 1.
    replace (SolarSystemExplorer.hex_to_rgb "#CCCCCC")
      with (Some (204, 204, 204)%Z) by reflexivity.
    now rewrite Hnone.
Qed.

End Shapes.

(** X13. The fallback body in 3D mode: for a color that [hex_to_rgb] can
    read and a screen radius of at least 1, [draw_planet_circle] draws
    [int(radius)] concentric circles around [(x, y)], of the radii
    [int(radius)] down to 1 in this order, each filled with a valid color;
    below a screen radius of 1 it draws nothing, so that the body
    disappears from the screen. *)
Theorem draw_planet_circle_3d (self : SolarSystemExplorer.t)
    (planet : Planet.t) (x y radius : R) (rgb : Z * Z * Z)
    (H3d : SolarSystemExplorer.show_3d self = true)
    (Hcolor : SolarSystemExplorer.hex_to_rgb (Planet.color planet) = Some rgb) :
  (radius < 1 ->
   SolarSystemExplorer.draw_planet_circle self planet x y radius = Some [])
  /\ (1 <= radius ->
      exists ovals,
        SolarSystemExplorer.draw_planet_circle self planet x y radius
        = Some ovals
        /\ List.length ovals = Z.to_nat (builtins.int radius)
        /\ Forall2
             (fun k o =>
                let i := IZR (builtins.int radius - Z.of_nat k) in
                SolarSystemExplorer.oval_x0 o = x - i
                /\ SolarSystemExplorer.oval_y0 o = y - i
                /\ SolarSystemExplorer.oval_x1 o = x + i
                /\ SolarSystemExplorer.oval_y1 o = y + i
                /\ SolarSystemExplorer.oval_outline o
                   = SolarSystemExplorer.oval_fill o
                /\ exists shade,
                     SolarSystemExplorer.hex_to_rgb
                       (SolarSystemExplorer.oval_fill o) = Some shade)
             (seq 0 (Z.to_nat (builtins.int radius))) ovals).
Proof.
  exact (planet_circle_drawn self planet x y radius rgb H3d Hcolor).
Qed.

(** X13 for Earth at screen radius 9.5: nine circles. *)
Lemma draw_planet_circle_3d_witness :
  exists ovals,
    SolarSystemExplorer.draw_planet_circle (Samples.scene [])
      Samples.earth 850 400 9.5 = Some ovals
    /\ List.length ovals = Z.to_nat (builtins.int 9.5).
Proof.
  destruct (draw_planet_circle_3d (Samples.scene []) Samples.earth 850 400 9.5
              (107, 147, 214)%Z) as [_ H].
  - reflexivity.
  - reflexivity.
  - destruct H as (ovals & Hd & Hl & _); [lra|].
    exists ovals. split; [exact Hd | exact Hl].
Defined.

(** X14. The rings of a body whose color [hex_to_rgb] can read are three
    ovals around [(x, y)] of half-widths [radius * 1.3] plus one, two and
    three thirds of [radius * 0.5]: the outermost reaches [radius * 1.8],
    none lies at [radius * 1.3]; in 3D mode each is flattened to a fifth of
    its width, otherwise it is a circle.  A color of fewer than five
    characters after its [#] makes [draw_rings] raise. *)
Theorem draw_rings_bands (self : SolarSystemExplorer.t) (planet : Planet.t)
    (x y radius : R) (rgb : Z * Z * Z)
    (Hcolor : SolarSystemExplorer.hex_to_rgb (Planet.color planet) = Some rgb) :
  let w k := radius * 1.3 + (radius * 1.8 - radius * 1.3) * (IZR k + 1) / 3 in
  let h k := if SolarSystemExplorer.show_3d self then w k * 0.2 else w k in
  (exists c0 c1 c2,
     SolarSystemExplorer.draw_rings self planet x y radius
     = Some [SolarSystemExplorer.mkOval (x - w 0%Z) (y - h 0%Z)
                                         (x + w 0%Z) (y + h 0%Z) "" c0;
             SolarSystemExplorer.mkOval (x - w 1%Z) (y - h 1%Z)
                                         (x + w 1%Z) (y + h 1%Z) "" c1;
             SolarSystemExplorer.mkOval (x - w 2%Z) (y - h 2%Z)
                                         (x + w 2%Z) (y + h 2%Z) "" c2])
  /\ w 2%Z = radius * 1.8
  /\ (0 < radius ->
      radius < radius * 1.3 < w 0%Z /\ w 0%Z < w 1%Z /\ w 1%Z < w 2%Z)
  /\ forall other : Planet.t,
       (String.length (python.lstrip "#" (Planet.color other)) <= 4)%nat ->
       SolarSystemExplorer.draw_rings self other x y radius = None.
Proof.
  exact (rings_drawn self planet x y radius rgb Hcolor).
Qed.

(** X14 for Saturn's color at screen radius 22. *)
Lemma draw_rings_bands_witness :
  exists ovals,
    SolarSystemExplorer.draw_rings (Samples.scene [])
      (Planet.mk "Saturn" 22 350 0.006 "#FAD5A5" 26.73 2.5 true 0 0 350 0 0 0 [])
      1050 400 22
    = Some ovals.
Proof.
  destruct (draw_rings_bands (Samples.scene [])
              (Planet.mk "Saturn" 22 350 0.006 "#FAD5A5" 26.73 2.5 true
                         0 0 350 0 0 0 [])
              1050 400 22 (250, 213, 165)%Z) as [(c0 & c1 & c2 & H) _].
  - reflexivity.
  - eexists. exact H.
Defined.




(** ** The catalog *)

Section Catalog.

Import SolarSystemExplorer.

Local Abbreviation listed := listed_moons.

Lemma append_no_moons (p : Planet.t) : Planet.append_moons [] p = p.
Proof. destruct p. unfold Planet.append_moons. cbn. now rewrite app_nil_r. Qed.

Lemma moons_from_names infos : forall g,
  map Moon.name (fst (moons_from infos g))
  = map (fun info => fst (fst (fst (fst info)))) infos
  /\ random.outputs (snd (moons_from infos g)) = random.outputs g
  /\ random.consumed (snd (moons_from infos g))
     = (random.consumed g + List.length infos)%nat
  /\ List.length (fst (moons_from infos g)) = List.length infos.
Proof.
  induction infos as [|[[[[name radius] distance] speed] color] infos IH];
    intros g.
  - cbn. repeat split. lia.
  - cbn [moons_from]. unfold Moon.init, random.uniform, random.random.
    specialize (IH (random.mkState (random.outputs g) (S (random.consumed g)))).
    destruct (moons_from infos _) as [moons g2].
    cbn [fst snd map List.length random.outputs random.consumed Moon.name] in *.
    destruct IH as (I1 & I2 & I3 & I4).
    repeat split; [now rewrite I1 | exact I2 | rewrite I3; lia | now rewrite I4].
Qed.

Lemma initialize_moons_attached planets : forall g,
  Forall2 (fun p p' =>
             exists moons,
               p' = Planet.append_moons moons p
               /\ map Moon.name moons = listed p)
          planets (fst (initialize_moons planets g))
  /\ random.outputs (snd (initialize_moons planets g)) = random.outputs g
  /\ (random.consumed (snd (initialize_moons planets g))
      = random.consumed g + list_sum (map (fun p => List.length (listed p)) planets))%nat.
Proof.
  induction planets as [|p planets IH]; intros g.
  - cbn. repeat split; [constructor | lia].
  - cbn [initialize_moons]. unfold listed_moons at 2. cbn [map list_sum].
    destruct (lookup (Planet.name p) moon_data) as [infos|] eqn:El.
    + destruct (moons_from_names infos g) as (M1 & M2 & M3 & M4).
      destruct (moons_from infos g) as [moons g1]. cbn [fst snd] in *.
      destruct (IH g1) as (I1 & I2 & I3).
      destruct (initialize_moons planets g1) as [rest' g2]. cbn [fst snd] in *.
      split; [|split].
      * constructor; [|exact I1]. exists moons. split; [reflexivity|].
        unfold listed_moons. now rewrite El.
      * congruence.
      * rewrite I3, M3. unfold list_sum. cbn [fold_right].
        rewrite length_map. unfold listed_moons. lia.
    + destruct (IH g) as (I1 & I2 & I3).
      destruct (initialize_moons planets g) as [rest' g2]. cbn [fst snd] in *.
      split; [|split].
      * constructor; [|exact I1]. exists []. split.
        -- symmetry. apply append_no_moons.
        -- unfold listed_moons. now rewrite El.
      * exact I2.
      * rewrite I3. unfold list_sum. cbn [fold_right List.length].
        unfold listed_moons. lia.
Qed.

End Catalog.

Lemma append_moons_name (moons : list Moon.t) (p : Planet.t) :
  Planet.name (Planet.append_moons moons p) = Planet.name p.
Proof. reflexivity. Qed.

(** X17. [initialize_moons] keeps the planets as they are, in their order,
    and appends to each the satellites that [moon_data] lists under its
    name, in the listed order; a planet that is not listed gets none.  It
    takes one draw of the random source per satellite.  For the built-in
    catalog this makes nine planets with fourteen satellites and 23 draws
    in all. *)
Theorem satellites_attached (planets : list Planet.t) (g : random.state)
    (now : R) :
  let result := SolarSystemExplorer.initialize_moons planets g in
  Forall2 (fun p p' =>
             exists moons,
               p' = Planet.append_moons moons p
               /\ map Moon.name moons = listed_moons p)
          planets (fst result)
  /\ map Planet.name (fst result) = map Planet.name planets
  /\ random.outputs (snd result) = random.outputs g
  /\ (random.consumed (snd result)
      = random.consumed g
        + list_sum (map (fun p => List.length (listed_moons p)) planets))%nat
  /\ map (fun p => (Planet.name p, map Moon.name (Planet.moon_objects p)))
         (SolarSystemExplorer.planets (fst (SolarSystemExplorer.init now g)))
     = [("Mercury", []); ("Venus", []); ("Earth", ["Moon"]);
        ("Mars", ["Phobos"; "Deimos"]);
        ("Jupiter", ["Io"; "Europa"; "Ganymede"; "Callisto"]);
        ("Saturn", ["Titan"; "Rhea"; "Iapetus"]);
        ("Uranus", ["Titania"; "Oberon"]); ("Neptune", ["Triton"]);
        ("Pluto", ["Charon"])]%string
  /\ random.consumed (snd (SolarSystemExplorer.init now g))
     = (random.consumed g + 23)%nat.
Proof.
  cbv zeta.
  destruct (initialize_moons_attached planets g) as (H1 & H2 & H3).
  split; [exact H1|]. split; [|split; [exact H2|split; [exact H3|]]].
  - clear H2 H3.
    induction H1 as [|p p' l l' (moons & -> & _) _ IH]; [reflexivity|].
    cbn [map]. now rewrite IH, append_moons_name.
  - split.
    + unfold SolarSystemExplorer.init, SolarSystemExplorer.initialize_planets,
        SolarSystemExplorer.planets_data.
      cbn. reflexivity.
    + unfold SolarSystemExplorer.init, SolarSystemExplorer.initialize_planets,
        SolarSystemExplorer.planets_data.
      cbn. lia.
Qed.

(** ** Selecting by name *)

Lemma find_by_name_unique (l : list Planet.t) (p : Planet.t) :
  NoDup (map Planet.name l) -> In p l ->
  find (fun q => String.eqb (Planet.name q) (Planet.name p)) l = Some p.
Proof.
  induction l as [|q l IH]; intros Hnd Hin; [contradiction|].
  cbn [map] in Hnd. inversion Hnd as [|? ? Hnotin Hnd']; subst.
  cbn [find]. destruct Hin as [->|Hin].
  - now rewrite String.eqb_refl.
  - destruct (String.eqb_spec (Planet.name q) (Planet.name p)) as [E|_].
    + exfalso. apply Hnotin. rewrite E. now apply in_map.
    + now apply IH.
Qed.

(** X18. With planet names that are all different, as in the built-in
    catalog, a click that hits a planet with a name opens the information
    on that very planet: picking by position and then looking the name up
    leads back to the planet that was hit.  A click that hits nothing, or
    a planet whose name is empty, opens nothing. *)
Theorem click_shows_clicked (self : SolarSystemExplorer.t) (x y : R)
    (p : Planet.t)
    (Hnames : NoDup (map Planet.name (SolarSystemExplorer.planets self)))
    (Hhit : SolarSystemExplorer.get_planet_at_position self x y = Some p) :
  (Planet.name p <> ""%string ->
   SolarSystemExplorer.clicked_info x y self = Some p)
  /\ (Planet.name p = ""%string ->
      SolarSystemExplorer.clicked_info x y self = None)
  /\ forall x' y',
       SolarSystemExplorer.get_planet_at_position self x' y' = None ->
       SolarSystemExplorer.clicked_info x' y' self = None.
Proof.
  unfold SolarSystemExplorer.clicked_info, SolarSystemExplorer.show_planet_info.
  rewrite Hhit.
  assert (Hin : In p (SolarSystemExplorer.planets self)).
  { unfold SolarSystemExplorer.get_planet_at_position in Hhit.
    rewrite planet_at_find in Hhit. now apply find_some in Hhit. }
  split; [|split].
  - intros Hne. destruct (String.eqb_spec (Planet.name p) "") as [E|_];
      [contradiction|].
    now apply find_by_name_unique.
  - intros ->. reflexivity.
  - intros x' y' Hmiss. now rewrite Hmiss.
Qed.

(** X18 for a click on Earth. *)
Lemma click_shows_clicked_witness :
  SolarSystemExplorer.clicked_info 859 400 (Samples.scene [Samples.earth])
  = Some Samples.earth.
Proof.
  refine (proj1 (click_shows_clicked (Samples.scene [Samples.earth]) 859 400
                   Samples.earth _ _) _).
  - simpl. constructor; [intros [] | constructor].
  - exact (proj1 pick_earth).
  - simpl. discriminate.
Defined.

(** X19. Selecting by name never fails: [show_planet_info] reports on the
    first planet of the catalog that bears the selected name, and on
    nothing when the selection is empty or no planet bears the name. *)
Theorem show_planet_info_lookup (self : SolarSystemExplorer.t)
    (selected : string) :
  match SolarSystemExplorer.show_planet_info selected self with
  | Some p =>
      selected <> ""%string
      /\ Planet.name p = selected
      /\ exists before after,
           SolarSystemExplorer.planets self = before ++ p :: after
           /\ Forall (fun q => Planet.name q <> selected) before
  | None =>
      selected = ""%string
      \/ Forall (fun q => Planet.name q <> selected)
                (SolarSystemExplorer.planets self)
  end.
Proof.
  unfold SolarSystemExplorer.show_planet_info.
  destruct (String.eqb_spec selected "") as [->|Hne]; [now left|].
  pose proof (find_first (fun p => String.eqb (Planet.name p) selected)
                (SolarSystemExplorer.planets self)) as H.
  destruct (find _ _) as [p|].
  - destruct H as (before & after & Hl & Hp & Hb).
    split; [exact Hne|]. split; [now apply String.eqb_eq|].
    exists before, after. split; [exact Hl|].
    apply Forall_forall. intros q Hq.
    rewrite forallb_forall in Hb. specialize (Hb q Hq).
    apply negb_true_iff in Hb. now apply String.eqb_neq.
  - right. apply Forall_forall. intros q Hq.
    rewrite forallb_forall in H. specialize (H q Hq).
    apply negb_true_iff in H. now apply String.eqb_neq.
Qed.

(** ** Catalog files *)

Section CatalogFiles.

Import SolarSystemExplorer.

Lemma key_eqb_eq (a b : option string) : key_eqb a b = true <-> a = b.
Proof.
  destruct a as [x|], b as [y|]; cbn; split; intros H;
    try discriminate; try reflexivity.
  - apply String.eqb_eq in H. now subst.
  - injection H as ->. apply String.eqb_refl.
Qed.

Lemma dict_get_set_same {V : Type} (k : option string) (v : V)
    (d : list (option string * V)) :
  dict_get key_eqb k (dict_set key_eqb k v d) = Some v.
Proof.
  induction d as [|[k' v'] d IH]; cbn.
  - now rewrite (proj2 (key_eqb_eq k k) eq_refl).
  - destruct (key_eqb k' k) eqn:E; cbn.
    + now rewrite (proj2 (key_eqb_eq k k) eq_refl).
    + now rewrite E.
Qed.

Lemma dict_get_set_other {V : Type} (k k0 : option string) (v : V)
    (d : list (option string * V)) :
  k <> k0 ->
  dict_get key_eqb k0 (dict_set key_eqb k v d) = dict_get key_eqb k0 d.
Proof.
  intros Hne. induction d as [|[k' v'] d IH]; cbn.
  - destruct (key_eqb k k0) eqn:E; [|reflexivity].
    apply key_eqb_eq in E. contradiction.
  - destruct (key_eqb k' k) eqn:E; cbn.
    + apply key_eqb_eq in E. subst k'.
      destruct (key_eqb k k0) eqn:E0; [|reflexivity].
      apply key_eqb_eq in E0. contradiction.
    + destruct (key_eqb k' k0); [reflexivity | exact IH].
Qed.

Lemma find_snoc {A : Type} (f : A -> bool) (l : list A) (a : A) :
  find f (l ++ [a])
  = match find f l with
    | Some b => Some b
    | None => if f a then Some a else None
    end.
Proof.
  induction l as [|b l IH]; cbn; [reflexivity|].
  destruct (f b); [reflexivity | exact IH].
Qed.

(** The dictionary that the comprehension builds maps a key to the last
    row that bears it, and else to what the accumulator held. *)
Lemma index_rows_last (rows : list row) : forall acc,
  forallb (fun r => match lookup "planet" r with
                    | Some _ => true
                    | None => false
                    end) rows = true ->
  exists d,
    index_rows rows acc = Some d
    /\ forall k,
         dict_get key_eqb k d
         = match find (fun r => match lookup "planet" r with
                                | Some k' => key_eqb k' k
                                | None => false
                                end) (rev rows) with
           | Some r => Some r
           | None => dict_get key_eqb k acc
           end.
Proof.
  induction rows as [|r rows IH]; intros acc Hall.
  - exists acc. split; reflexivity.
  - cbn [forallb] in Hall. apply andb_prop in Hall as [Hr Hall].
    cbn [index_rows].
    destruct (lookup "planet" r) as [k0|] eqn:El; [|discriminate].
    destruct (IH (dict_set key_eqb k0 r acc) Hall) as (d & Hd & Hget).
    exists d. split; [exact Hd|].
    intros k. rewrite Hget. cbn [rev]. rewrite find_snoc.
    match goal with
    | |- context [find ?f (rev rows)] => destruct (find f (rev rows))
    end; [reflexivity|].
    rewrite El.
    destruct (key_eqb k0 k) eqn:E.
    + apply key_eqb_eq in E. subst. apply dict_get_set_same.
    + apply dict_get_set_other. intros ->.
      rewrite (proj2 (key_eqb_eq k k) eq_refl) in E. discriminate.
Qed.

Lemma index_rows_key_error (rows : list row) : forall acc,
  forallb (fun r => match lookup "planet" r with
                    | Some _ => true
                    | None => false
                    end) rows = false ->
  index_rows rows acc = None.
Proof.
  induction rows as [|r rows IH]; intros acc Hall; [discriminate|].
  cbn [forallb index_rows] in *.
  destruct (lookup "planet" r); [|reflexivity].
  cbn [andb] in Hall. now apply IH.
Qed.

End CatalogFiles.

(** X20. [count_moons] is the number of rows of the satellite file whose
    field [planet] is the name, so at most the number of rows; it is 0 for
    every planet when the file could not be read; and a single row
    without the field [planet] makes it raise for every planet. *)
Theorem count_moons_counts (satellite_data : list SolarSystemExplorer.row)
    (planet_name : string) :
  let has_field r :=
    match SolarSystemExplorer.lookup "planet" r with
    | Some _ => true
    | None => false
    end in
  let of_planet r :=
    match SolarSystemExplorer.lookup "planet" r with
    | Some (Some p) => String.eqb p planet_name
    | _ => false
    end in
  SolarSystemExplorer.count_moons satellite_data planet_name
  = (if forallb has_field satellite_data
     then Some (List.length (filter of_planet satellite_data))
     else None)
  /\ (List.length (filter of_planet satellite_data)
      <= List.length satellite_data)%nat
  /\ SolarSystemExplorer.count_moons
       (SolarSystemExplorer.load_satellite_data None) planet_name = Some O.
Proof.
  cbv zeta. split; [|split; [apply filter_length_le | reflexivity]].
  induction satellite_data as [|r rows IH]; [reflexivity|].
  cbn [SolarSystemExplorer.count_moons forallb filter].
  destruct (SolarSystemExplorer.lookup "planet" r) as [[p|]|]; cbn [andb].
  - rewrite IH.
    match goal with
    | |- context [forallb ?f rows] => destruct (forallb f rows)
    end; [|reflexivity].
    destruct (String.eqb p planet_name); reflexivity.
  - rewrite IH.
    match goal with
    | |- context [forallb ?f rows] => destruct (forallb f rows)
    end; reflexivity.
  - reflexivity.
Qed.

(** X21. [load_planet_data] never raises: it is the empty dictionary when
    the file cannot be read and when a row lacks the field [planet];
    otherwise it maps a planet name to the last row of that planet, so a
    later row replaces an earlier one.  A planet that the dictionary does
    not hold gets [None] for every scientific field. *)
Theorem load_planet_data_last_row (rows : list SolarSystemExplorer.row)
    (name field : string) :
  let has_field r :=
    match SolarSystemExplorer.lookup "planet" r with
    | Some _ => true
    | None => false
    end in
  let of_planet r :=
    match SolarSystemExplorer.lookup "planet" r with
    | Some k => SolarSystemExplorer.key_eqb k (Some name)
    | None => false
    end in
  SolarSystemExplorer.load_planet_data None = []
  /\ (forallb has_field rows = false ->
      SolarSystemExplorer.load_planet_data (Some rows) = [])
  /\ (forallb has_field rows = true ->
      SolarSystemExplorer.dict_get SolarSystemExplorer.key_eqb (Some name)
        (SolarSystemExplorer.load_planet_data (Some rows))
      = find of_planet (rev rows))
  /\ SolarSystemExplorer.csv_field [] name field = None
  /\ (SolarSystemExplorer.dict_get SolarSystemExplorer.key_eqb (Some name)
        (SolarSystemExplorer.load_planet_data (Some rows)) = None ->
      SolarSystemExplorer.csv_field
        (SolarSystemExplorer.load_planet_data (Some rows)) name field = None).
Proof.
  cbv zeta. split; [reflexivity|]. split; [|split; [|split]].
  - intros Hall. unfold SolarSystemExplorer.load_planet_data.
    now rewrite index_rows_key_error.
  - intros Hall. unfold SolarSystemExplorer.load_planet_data.
    destruct (index_rows_last rows [] Hall) as (d & Hd & Hget).
    rewrite Hd, Hget. cbn [SolarSystemExplorer.dict_get].
    match goal with
    | |- context [find ?f (rev rows)] => now destruct (find f (rev rows))
    end.
  - reflexivity.
  - intros Hnone. unfold SolarSystemExplorer.csv_field. now rewrite Hnone.
Qed.

(** X21 for two rows on Earth: the second one is the row of Earth. *)
Lemma load_planet_data_last_row_witness :
  SolarSystemExplorer.dict_get SolarSystemExplorer.key_eqb (Some "Earth"%string)
    (SolarSystemExplorer.load_planet_data (Some earth_rows))
  = Some [("planet", Some "Earth"); ("mass", Some "6.0")]%string.
Proof.
  destruct (load_planet_data_last_row earth_rows "Earth" "mass")
    as (_ & _ & H & _).
  rewrite H; reflexivity.
Defined.

(** ** Drawing never raises *)

Section NeverRaises.

Import SolarSystemExplorer.








End NeverRaises.



(** ** Ticks and toggles *)

Section Ticks.

Import SolarSystemExplorer.


Lemma planet_items_only (s : t) (l : list Planet.t) :
  show_moons s = false ->
  Forall (fun i => match i with MoonItem _ _ _ _ => False | _ => True end)
         (flat_map (fun planet =>
                      draw_planet s planet
                      :: (if show_moons s
                          then map (draw_moon s) (Planet.moon_objects planet)
                          else []))
                   l).
Proof.
  intros Hm. rewrite Hm. induction l as [|p l IH]; [constructor|].
  cbn [flat_map app draw_planet]. constructor; [exact I | exact IH].
Qed.

End Ticks.



(** X25. The toggles take effect in the frame they render: after
    [toggle_moons] the new frame shows a satellite only if the box is
    checked, and after [toggle_orbits] it holds the orbit guides exactly
    if the box is checked; either way the frame begins with the
    starfield and paints the planets in the order of C3. *)
Theorem toggles_take_effect (self : SolarSystemExplorer.t) (b : bool) :
  (exists f,
     SolarSystemExplorer.canvas (SolarSystemExplorer.toggle_moons b self)
     = f :: SolarSystemExplorer.canvas self
     /\ (b = false ->
         Forall (fun i =>
                   match i with
                   | SolarSystemExplorer.MoonItem _ _ _ _ => False
                   | _ => True
                   end)
                (SolarSystemExplorer.frame_items f))
     /\ hd_error (SolarSystemExplorer.frame_items f)
        = Some SolarSystemExplorer.Starfield
     /\ Spec.painted_planets f = SolarSystemExplorer.planets_sorted self)
  /\ (exists f,
        SolarSystemExplorer.canvas (SolarSystemExplorer.toggle_orbits b self)
        = f :: SolarSystemExplorer.canvas self
        /\ existsb (fun i =>
                      match i with
                      | SolarSystemExplorer.Orbits => true
                      | _ => false
                      end)
                   (SolarSystemExplorer.frame_items f) = b
        /\ hd_error (SolarSystemExplorer.frame_items f)
           = Some SolarSystemExplorer.Starfield
        /\ Spec.painted_planets f = SolarSystemExplorer.planets_sorted self).
Proof.
  split.
  - destruct (painted_planets_draw (SolarSystemExplorer.set_show_moons b self))
      as (f & Hc & _ & Hp).
    exists f. unfold SolarSystemExplorer.toggle_moons.
    split; [exact Hc|].
    cbn [SolarSystemExplorer.draw_solar_system SolarSystemExplorer.set_canvas
         SolarSystemExplorer.canvas] in Hc.
    injection Hc as Hf. subst f.
    cbn [SolarSystemExplorer.frame_items].
    split; [|split; [reflexivity | exact Hp]].
    intros ->. repeat constructor.
    apply Forall_app. split.
    + destruct (SolarSystemExplorer.show_orbits _); repeat constructor.
    + constructor; [exact I|].
      apply (planet_items_only (SolarSystemExplorer.set_show_moons false self)).
      reflexivity.
  - destruct (painted_planets_draw (SolarSystemExplorer.set_show_orbits b self))
      as (f & Hc & _ & Hp).
    exists f. unfold SolarSystemExplorer.toggle_orbits.
    split; [exact Hc|].
    cbn [SolarSystemExplorer.draw_solar_system SolarSystemExplorer.set_canvas
         SolarSystemExplorer.canvas] in Hc.
    injection Hc as Hf. subst f.
    cbn [SolarSystemExplorer.frame_items].
    split; [|split; [reflexivity | exact Hp]].
    cbn [SolarSystemExplorer.show_orbits SolarSystemExplorer.set_show_orbits
         app existsb].
    destruct b; [reflexivity|].
    cbn [app existsb SolarSystemExplorer.draw_sun orb]. clear Hp.
    induction (SolarSystemExplorer.planets_sorted _) as [|p l IH];
      [reflexivity|].
    cbn [flat_map app existsb SolarSystemExplorer.draw_planet orb].
    rewrite existsb_app, IH, orb_false_r.
    destruct (SolarSystemExplorer.show_moons _); [|reflexivity].
    induction (Planet.moon_objects p) as [|m ms IHm]; [reflexivity|].
    cbn [map existsb SolarSystemExplorer.draw_moon orb]. exact IHm.
Qed.
